(** * DigiCC: the command/response client of [core.py]

    A shallow embedding of the [Camera] class of [src/core.py]: the
    string operations the parser relies on ([in], [str.split],
    [str.strip], [str.replace]), the [_execute] primitive over an
    abstract relay process, the [_get]/[_set]/[_list] primitives, the
    [Transfer] property and the action methods, followed by the
    properties the specification states about them. *)

From Stdlib Require Import String Ascii List Bool Arith Lia DecimalString.
Import ListNotations.
Open Scope string_scope.

(** ** Python [str] operations

    A [str] is modelled as a [string] of characters.  Every separator
    and marker the source passes to [split] and [in] is a non-empty
    literal; the lemmas below carry that as a hypothesis where they
    need it. *)

Module PyStr.

(** [s[n:]] *)
Fixpoint drop (n : nat) (s : string) : string :=
  match n, s with
  | 0, _ => s
  | S _, EmptyString => EmptyString
  | S k, String _ s' => drop k s'
  end.

(** [s.startswith(p)] *)
Fixpoint startswith (p s : string) : bool :=
  match p, s with
  | EmptyString, _ => true
  | String _ _, EmptyString => false
  | String a p', String b s' => Ascii.eqb a b && startswith p' s'
  end.

(** [sub in s] *)
Fixpoint contains (sub s : string) : bool :=
  startswith sub s ||
  match s with
  | EmptyString => false
  | String _ s' => contains sub s'
  end.

(** [s.partition(sep)], with [None] when [sep] does not occur: the
    text before the leftmost occurrence and the text after it. *)
Fixpoint partition (sep s : string) : option (string * string) :=
  if startswith sep s then Some (EmptyString, drop (String.length sep) s)
  else match s with
       | EmptyString => None
       | String c s' =>
           match partition sep s' with
           | Some (a, b) => Some (String c a, b)
           | None => None
           end
       end.

(** [s.split(sep)]: cut at the leftmost occurrence, go on after it.
    The recursion is on the text left, so it takes fuel. *)
Fixpoint split_fuel (fuel : nat) (sep s : string) : list string :=
  match fuel with
  | 0 => [s]
  | S f =>
      match partition sep s with
      | None => [s]
      | Some (a, b) => a :: split_fuel f sep b
      end
  end.

Definition split (sep s : string) : list string :=
  split_fuel (S (String.length s)) sep s.

(** [sep.join(l)] *)
Fixpoint join (sep : string) (l : list string) : string :=
  match l with
  | [] => EmptyString
  | [x] => x
  | x :: rest => x ++ sep ++ join sep rest
  end.

(** [s.replace(old, new)], for a non-empty [old]: the occurrences
    found from the left, without overlap, are the ones [split] cuts at. *)
Definition replace (old new s : string) : string :=
  join new (split old s).

(** [c in chars] for a single character *)
Fixpoint mem_char (c : ascii) (chars : string) : bool :=
  match chars with
  | EmptyString => false
  | String d rest => Ascii.eqb c d || mem_char c rest
  end.

Fixpoint lstrip (chars s : string) : string :=
  match s with
  | EmptyString => EmptyString
  | String c s' => if mem_char c chars then lstrip chars s' else s
  end.

Fixpoint rstrip (chars s : string) : string :=
  match s with
  | EmptyString => EmptyString
  | String c s' =>
      match rstrip chars s' with
      | EmptyString => if mem_char c chars then EmptyString
                       else String c EmptyString
      | r => String c r
      end
  end.

(** [s.strip(chars)] *)
Definition strip (chars s : string) : string :=
  rstrip chars (lstrip chars s).

(** every character of [s] is one of [chars] *)
Fixpoint all_in (chars s : string) : bool :=
  match s with
  | EmptyString => true
  | String c s' => mem_char c chars && all_in chars s'
  end.

Definition first_char (s : string) : option ascii :=
  match s with
  | EmptyString => None
  | String c _ => Some c
  end.

Fixpoint last_char (s : string) : option ascii :=
  match s with
  | EmptyString => None
  | String c EmptyString => Some c
  | String _ s' => last_char s'
  end.

End PyStr.

Definition CR : string := String (ascii_of_nat 13) EmptyString.
Definition LF : string := String (ascii_of_nat 10) EmptyString.
Definition CRLF : string := CR ++ LF.
Definition DQ : string := String (ascii_of_nat 34) EmptyString.

(** The character sets the source strips. *)
Definition chars_crlf : string := CRLF.                       (* CR LF *)
Definition chars_value : string := DQ ++ ";" ++ CRLF.         (* quote ; CR LF *)
Definition chars_list : string := "[];" ++ CRLF.              (* [ ] ; CR LF *)

(** ** Exceptions, process outcomes and the world *)

Inductive exn : Type :=
| IndexError                      (* list index out of range *)
| AttributeError                  (* None has no attribute replace *)
| ValueError (value : string)     (* not a valid TransferMode *)
| OtherError (what : string).     (* anything else, e.g. OSError *)

Inductive Result (A : Type) : Type :=
| Return (a : A)
| Raise (e : exn).
Arguments Return {A} a.
Arguments Raise {A} e.

(** What [subprocess.check_output(cmd).decode()] can do: give the text
    the relay printed, raise [CalledProcessError] on a non-zero exit, or
    raise something else (the executable cannot be spawned, the output
    does not decode). *)
Inductive ProcOutcome : Type :=
| Exited0 (stdout : string)
| CalledProcessError (returncode : nat)
| Failed (e : exn).

Definition argv : Type := list string.

Inductive LogRecord : Type :=
| INFO_execute (cmd : argv) (result : string)        (* core.py:67-71 *)
| ERROR_execute (cmd : argv) (returncode : nat)      (* core.py:74 *)
| ERROR (message : string).                          (* the other logging.error calls *)

(** The fields of a [Camera] the methods below read and write, the log
    stream, the process invocations made so far (oldest first), and the
    relay: the outcome of an invocation given the earlier ones. *)
Record World : Type := mkWorld {
  remote_utility : string;
  inLiveViewMode : bool;
  AutoFocus : bool;
  log : list LogRecord;
  calls : list argv;
  relay : list argv -> argv -> ProcOutcome
}.

Definition set_inLiveViewMode (b : bool) (w : World) : World :=
  mkWorld (remote_utility w) b (AutoFocus w) (log w) (calls w) (relay w).

Definition add_log (r : LogRecord) (w : World) : World :=
  mkWorld (remote_utility w) (inLiveViewMode w) (AutoFocus w)
          (log w ++ [r])%list (calls w) (relay w).

Definition add_call (c : argv) (w : World) : World :=
  mkWorld (remote_utility w) (inLiveViewMode w) (AutoFocus w)
          (log w) (calls w ++ [c])%list (relay w).

(** ** The state and exception monad of the methods *)

Definition M (A : Type) : Type := World -> Result A * World.

Definition ret {A} (a : A) : M A := fun w => (Return a, w).

Definition raise {A} (e : exn) : M A := fun w => (Raise e, w).

Definition bind {A B} (m : M A) (k : A -> M B) : M B :=
  fun w =>
    match m w with
    | (Return a, w') => k a w'
    | (Raise e, w') => (Raise e, w')
    end.

Declare Scope py_scope.
Delimit Scope py_scope with py.
Notation "x <- m ;; k" := (bind m (fun x => k))
  (at level 61, m at next level, right associativity) : py_scope.
Notation "m ;; k" := (bind m (fun _ => k))
  (at level 61, right associativity) : py_scope.
Open Scope py_scope.

Definition logging_error (message : string) : M unit :=
  fun w => (Return tt, add_log (ERROR message) w).

(** [l[i]] *)
Definition subscript {A} (l : list A) (i : nat) : M A :=
  match nth_error l i with
  | Some x => ret x
  | None => raise IndexError
  end.

(** ** [TransferMode] (core.py:14-17) *)

Inductive TransferMode : Type := PC | CAMERA | BOTH.

Definition TransferMode_value (m : TransferMode) : string :=
  match m with
  | PC => "Save_to_PC_only"
  | CAMERA => "Save_to_camera_only"
  | BOTH => "Save_to_PC_and_camera"
  end.

(** [TransferMode(v)]: the member whose value is [v], else [ValueError]. *)
Definition TransferMode_call (v : string) : M TransferMode :=
  if String.eqb v (TransferMode_value PC) then ret PC
  else if String.eqb v (TransferMode_value CAMERA) then ret CAMERA
  else if String.eqb v (TransferMode_value BOTH) then ret BOTH
  else raise (ValueError v).

(** ** [Camera] (core.py:20-409) *)

(** core.py:63-76.  The [raise] after the [return] of the empty text is never reached. *)
Definition _execute (command : string) : M string :=
  fun w =>
    let cmd := [remote_utility w; "/c"; command] in
    let w1 := add_call cmd w in
    match relay w (calls w) cmd with
    | Exited0 result => (Return result, add_log (INFO_execute cmd result) w1)
    | CalledProcessError rc => (Return "", add_log (ERROR_execute cmd rc) w1)
    | Failed e => (Raise e, w1)
    end.

(** core.py:247-262 *)
Definition _get (param : string) : M (option string) :=
  response <- _execute ("get " ++ param) ;;
  if PyStr.contains "error" response then
    seg <- subscript (PyStr.split "message:" response) 1 ;;
    let error_message := PyStr.strip chars_crlf seg in
    logging_error ("Error executing get command: " ++ error_message) ;;
    ret None
  else
    seg <- subscript (PyStr.split "response:" response) 1 ;;
    let value := PyStr.strip chars_value seg in
    ret (Some value).

(** core.py:264-279.  [value] is the text the f-string renders. *)
Definition _set (param value : string) : M (option string) :=
  response <- _execute ("set " ++ param ++ " " ++ value) ;;
  if PyStr.contains "error" response then
    seg <- subscript (PyStr.split "message:" response) 1 ;;
    let error_message := PyStr.strip chars_crlf seg in
    logging_error ("Error executing set command: " ++ error_message) ;;
    ret None
  else
    seg <- subscript (PyStr.split "response:" response) 1 ;;
    let value := PyStr.strip chars_value seg in
    ret (Some value).

(** core.py:281-296 *)
Definition _list (param : string) : M (list string) :=
  response <- _execute ("list " ++ param) ;;
  if PyStr.contains "error" response then
    seg <- subscript (PyStr.split "message:" response) 1 ;;
    let error_message := PyStr.strip chars_crlf seg in
    logging_error ("Error executing list command: " ++ error_message) ;;
    ret []
  else
    seg <- subscript (PyStr.split "response:" response) 1 ;;
    let response_list :=
      PyStr.split "," (PyStr.replace DQ "" (PyStr.strip chars_list seg)) in
    ret response_list.

(** core.py:227-230.  [mode.replace] on [None] is an [AttributeError]. *)
Definition Transfer : M TransferMode :=
  mode <- _get "transfer" ;;
  match mode with
  | None => raise AttributeError
  | Some m => TransferMode_call (PyStr.replace " " "_" m)
  end.

(** core.py:232-234 *)
Definition set_Transfer (mode : TransferMode) : M unit :=
  _set "transfer" (TransferMode_value mode) ;; ret tt.

(** core.py:236-244 *)
Definition LastCaptured : M (option string) :=
  response <- _execute "get lastcaptured" ;;
  if PyStr.contains "error" response then
    seg <- subscript (PyStr.split "message:" response) 1 ;;
    let error_message := PyStr.strip chars_crlf seg in
    logging_error ("Error executing get lastcaptured command: " ++ error_message) ;;
    ret None
  else
    seg <- subscript (PyStr.split "response:" response) 1 ;;
    ret (Some (PyStr.strip chars_value seg)).

(** core.py:388-392 *)
Definition minimizeAll : M unit :=
  _execute "do All_Minimize" ;; ret tt.

(** core.py:394-398 *)
Definition closeAll : M unit :=
  _execute "do All_Close" ;; ret tt.

(** core.py:311-318 *)
Definition startLiveView : M unit :=
  (fun w => (Return tt, set_inLiveViewMode true w)) ;;
  _execute "do LiveViewWnd_Show" ;;
  minimizeAll.

(** core.py:320-325 *)
Definition stopLiveView : M unit :=
  (fun w => (Return tt, set_inLiveViewMode false w)) ;;
  _execute "do LiveViewWnd_Hide" ;;
  ret tt.

(** core.py:327-336 *)
Definition focus : M unit :=
  fun w =>
    if inLiveViewMode w then (_execute "do LiveView_Focus" ;; ret tt) w
    else logging_error
           "Error: Camera is not in live view mode. Cannot execute focus command." w.

(** The command [capture] builds (core.py:344-347).  [if location:] is
    false for [None] and for the empty string. *)
Definition capture_command (live af : bool) (location : option string) : string :=
  let capturecmd := if af then "Capture" else "CaptureNoAf" in
  let command := if live then "do LiveView_Capture" else capturecmd in
  match location with
  | Some (String c l) => command ++ " " ++ String c l
  | _ => command
  end.

(** core.py:338-355.  [time.sleep(1)] changes nothing that is modelled. *)
Definition capture (location : option string) : M (option string) :=
  fun w =>
    (response <- _execute (capture_command (inLiveViewMode w) (AutoFocus w) location) ;;
     if PyStr.contains "error" response then
       seg <- subscript (PyStr.split "message:" response) 1 ;;
       let error_message := PyStr.strip chars_crlf seg in
       logging_error ("Error executing capture command: " ++ error_message) ;;
       ret None
     else LastCaptured) w.

(** core.py:357-377 *)
Definition startRecording : M bool :=
  fun w =>
    (let command := if inLiveViewMode w then "do LiveViewWnd_StartRecord"
                    else "do StartRecord" in
     response <- _execute command ;;
     seg <- subscript (PyStr.split "response:" response) 1 ;;
     let response_text := PyStr.strip chars_value seg in
     if String.eqb response_text "" then ret true
     else
       logging_error ("Error starting video recording: " ++ response_text) ;;
       ret false) w.

(** core.py:380-386 *)
Definition stopRecording : M unit :=
  fun w =>
    (let command := if inLiveViewMode w then "do LiveViewWnd_StopRecord"
                    else "do StopRecord" in
     _execute command ;; ret tt) w.

(** core.py:400-409, [with cam.liveView(): body].  Entry runs the
    generator up to [yield]; an exception there leaves before the [try].
    After the body, returned or raised, the [finally] block runs; what
    it raises replaces the outcome of the body. *)
Definition liveView {A} (body : M A) : M A :=
  fun w =>
    match startLiveView w with
    | (Raise e, w1) => (Raise e, w1)
    | (Return _, w1) =>
        let (r, w2) := body w1 in
        match stopLiveView w2 with
        | (Raise e, w3) => (Raise e, w3)
        | (Return _, w3) => (r, w3)
        end
    end.

(** The readable and writable properties (core.py:78-225). *)
Definition ShutterSpeeds := _list "shutterspeed".
Definition ShutterSpeed := _get "shutterspeed".
Definition set_ShutterSpeed (value : string) := _set "shutterspeed" value.
Definition ISOs := _list "iso".
Definition ISO := _get "iso".
Definition set_ISO (value : string) := _set "iso" value.
Definition Apertures := _list "aperture".
Definition Aperture := _get "aperture".
Definition set_Aperture (value : string) := _set "aperture" value.
Definition Session := _get "session.name".
Definition set_Session (value : string) := _set "session.name" value.
Definition Folder := _get "session.folder".
Definition set_Folder (value : string) := _set "session.folder" value.

(** ** Vocabulary of the statements *)

(** [sep] occurs in [s] right after [pre], and nowhere further left. *)
Definition leftmost (sep pre tail s : string) : Prop :=
  s = pre ++ sep ++ tail /\
  forall i, i < String.length pre -> PyStr.startswith sep (PyStr.drop i s) = false.

(** [body] is [tail] up to the next occurrence of [sep], or all of
    [tail] when there is none. *)
Definition upto_next (sep body tail : string) : Prop :=
  (PyStr.contains sep tail = false /\ body = tail) \/
  (exists rest, leftmost sep body rest tail).

(** [body] is what stands between the first [marker] of [raw] and the
    next one (or the end of [raw]). *)
Definition field (marker raw body : string) : Prop :=
  exists pre tail, leftmost marker pre tail raw /\ upto_next marker body tail.

(** [r] is [s] without a run of [chars] at either end, and cannot lose
    more of them. *)
Definition stripped (chars s r : string) : Prop :=
  (exists l t, s = l ++ r ++ t /\
               PyStr.all_in chars l = true /\ PyStr.all_in chars t = true) /\
  (forall c, PyStr.first_char r = Some c -> PyStr.mem_char c chars = false) /\
  (forall c, PyStr.last_char r = Some c -> PyStr.mem_char c chars = false).

(** No proper suffix of [sep] is a prefix of it: two occurrences of
    [sep] cannot overlap.  Both markers of the protocol are so. *)
Definition border_free (sep : string) : bool :=
  forallb (fun k => negb (PyStr.startswith (PyStr.drop k sep) sep))
          (seq 1 (String.length sep - 1)).

(** What [capture] adds to its verb for a destination: a space and
    the location, when one is given and is not empty. *)
Definition appended (location : option string) : string :=
  match location with
  | None => ""
  | Some l => if String.eqb l "" then "" else " " ++ l
  end.

(** The text the external application shows for a transfer mode: the
    value with its underscores rendered as spaces. *)
Definition TransferMode_display (m : TransferMode) : string :=
  PyStr.replace "_" " " (TransferMode_value m).

(** The argument list [_execute] builds in world [w]. *)
Definition invocation (w : World) (command : string) : argv :=
  [remote_utility w; "/c"; command].

(** The world right after a process invocation that printed [raw]. *)
Definition executed (w : World) (command raw : string) : World :=
  add_log (INFO_execute (invocation w command) raw)
          (add_call (invocation w command) w).

(** ** The parsing rules as the specification words them

    Section 4.1 of the specification speaks of the message found after
    the marker up to the next line break and of the substring following
    the marker.  These definitions follow those words, to be compared
    with what the methods compute. *)

Module Spec.

(** the substring following the first [marker] *)
Definition following (marker raw : string) : string :=
  match PyStr.partition marker raw with
  | Some (_, tail) => tail
  | None => ""
  end.

(** [s] up to its first line-break character *)
Fixpoint upto_linebreak (s : string) : string :=
  match s with
  | EmptyString => EmptyString
  | String c s' =>
      if PyStr.mem_char c chars_crlf then EmptyString
      else String c (upto_linebreak s')
  end.

(** the message an error response carries *)
Definition message (raw : string) : string :=
  upto_linebreak (following "message:" raw).

(** the value a [get] answers with *)
Definition get_value (raw : string) : option string :=
  if PyStr.contains "error" raw then None
  else Some (PyStr.strip chars_value (following "response:" raw)).

(** the sequence a [list] answers with *)
Definition list_values (raw : string) : list string :=
  if PyStr.contains "error" raw then []
  else PyStr.split ","
         (PyStr.replace DQ "" (PyStr.strip chars_list (following "response:" raw))).

(** the response body [startRecording] looks at *)
Definition body (raw : string) : string :=
  PyStr.strip chars_value (following "response:" raw).

Definition startRecording (raw : string) : bool :=
  String.eqb (body raw) "".

End Spec.

(** ** Fake relays and a fresh camera, for concrete runs *)

(** A relay that answers every invocation the same way. *)
Definition relay_const (o : ProcOutcome) : list argv -> argv -> ProcOutcome :=
  fun _ _ => o.

(** A relay that prints [raw] whatever it is asked. *)
Definition relay_print (raw : string) : list argv -> argv -> ProcOutcome :=
  relay_const (Exited0 raw).

(** The value of the most recent [set transfer] among [hist]. *)
Fixpoint last_set_transfer (hist : list argv) (acc : option string) : option string :=
  match hist with
  | [] => acc
  | [_; _; command] :: rest =>
      if PyStr.startswith "set transfer " command
      then last_set_transfer rest (Some (PyStr.drop 13 command))
      else last_set_transfer rest acc
  | _ :: rest => last_set_transfer rest acc
  end.

(** A relay that remembers the transfer mode it was set to and answers
    [get transfer] with it, underscores rendered as spaces. *)
Definition relay_echo : list argv -> argv -> ProcOutcome :=
  fun hist cmd =>
    match cmd with
    | [_; _; "get transfer"] =>
        match last_set_transfer hist None with
        | Some v => Exited0 ("response:" ++ DQ ++ PyStr.replace "_" " " v ++ DQ ++ ";" ++ CRLF)
        | None => Exited0 ("response:" ++ DQ ++ "Save to camera only" ++ DQ ++ ";" ++ CRLF)
        end
    | _ => Exited0 ("response:" ++ DQ ++ DQ ++ ";" ++ CRLF)
    end.

(** The camera as [__init__] leaves it (core.py:33-36), with the
    default installation directory, in front of relay [r]. *)
Definition fresh (r : list argv -> argv -> ProcOutcome) : World :=
  mkWorld "C:\Program Files (x86)\digiCamControl\CameraControlRemoteCmd.exe"
          false true [] [] r.

(** ** The rest of [Camera] *)

(** core.py:298-309.  The list in the message is rendered as Python
    renders a list of strings. *)
Definition valid_commands : list string := ["get"; "set"; "list"; "capture"; "do"].

Definition singleLineCommand (command_type : string) : M (option string) :=
  if negb (existsb (String.eqb command_type) valid_commands) then
    logging_error ("Invalid command type: " ++ command_type ++
                   ". Valid commands are ['get', 'set', 'list', 'capture', 'do'].") ;;
    ret None
  else
    response <- _execute command_type ;;
    ret (Some response).

(** *** Construction (core.py:24-61)

    The constructor runs before there is a relay to talk to: it looks at
    the file system, asks [tasklist] and may launch the application.
    The object is modelled by its instance attributes, in the order they
    are assigned, so that reading one that was never assigned fails as
    it does in Python. *)

Inductive pyval : Type :=
| VStr (s : string)
| VInt (n : nat)
| VBool (b : bool)
| VEmptyDict.

Definition attrs : Type := list (string * pyval).

(** [self.name = v] *)
Fixpoint setattr (name : string) (v : pyval) (o : attrs) : attrs :=
  match o with
  | [] => [(name, v)]
  | (n, x) :: rest =>
      if String.eqb n name then (n, v) :: rest
      else (n, x) :: setattr name v rest
  end.

Fixpoint lookup (name : string) (o : attrs) : option pyval :=
  match o with
  | [] => None
  | (n, x) :: rest => if String.eqb n name then Some x else lookup name rest
  end.

(** The names the class itself defines: its methods and properties. *)
Definition class_names : list string :=
  ["__init__"; "on"; "_is_running"; "_start_app"; "_execute";
   "ShutterSpeeds"; "ShutterSpeed"; "ISOs"; "ISO"; "ExposureComps";
   "ExposureComp"; "Apertures"; "Aperture"; "FocusModes"; "FocusMode";
   "WhiteBalances"; "WhiteBalance"; "Modes"; "Mode"; "Compressions";
   "Compression"; "Session"; "Folder"; "Counter"; "FileNameTemplate";
   "DeleteFileAfterTransfer"; "Transfer"; "LastCaptured"; "_get"; "_set";
   "_list"; "singleLineCommand"; "startLiveView"; "stopLiveView"; "focus";
   "capture"; "startRecording"; "stopRecording"; "minimizeAll"; "closeAll";
   "liveView"].

(** [self.name] for a name the class does not define (none of
    [class_names]): the instance has it, or it is an [AttributeError]. *)
Definition getattr (name : string) (o : attrs) : Result pyval :=
  match lookup name o with
  | Some v => Return v
  | None => Raise AttributeError
  end.

(** How an f-string renders a value. *)
Definition py_str (v : pyval) : string :=
  match v with
  | VStr s => s
  | VInt n => NilEmpty.string_of_uint (Nat.to_uint n)
  | VBool true => "True"
  | VBool false => "False"
  | VEmptyDict => "{}"
  end.

(** The machine the constructor runs on: how [Path(d) / name] prints,
    which paths exist, what [tasklist] does, and what launching a
    program raises, if anything. *)
Record Host : Type := mkHost {
  path_join : string -> string -> string;
  path_exists : string -> bool;
  tasklist : ProcOutcome;
  popen : argv -> option exn
}.

Inductive BootRecord : Type :=
| BOOT_ERROR (message : string)          (* core.py:53 *)
| BOOT_ERROR_start (e : exn).            (* core.py:61 *)

(** What construction has done so far besides assigning attributes. *)
Record Boot : Type := mkBoot {
  boot_log : list BootRecord;
  launched : list argv;
  slept : list nat
}.

Definition boot0 : Boot := mkBoot [] [] [].

(** core.py:48-54 *)
Definition _is_running (h : Host) (process_name : string) (b : Boot)
  : Result bool * Boot :=
  match tasklist h with
  | Exited0 output => (Return (PyStr.contains process_name output), b)
  | CalledProcessError _ =>
      (Return false,
       mkBoot (boot_log b ++ [BOOT_ERROR "Error checking running tasks."])%list
              (launched b) (slept b))
  | Failed e => (Raise e, b)
  end.

(** core.py:56-61.  [except Exception] keeps whatever the body of
    the [try] raises from leaving the method; it is logged instead. *)
Definition _start_app (h : Host) (self : attrs) (b : Boot) : Result unit * Boot :=
  let caught e :=
    (Return tt, mkBoot (boot_log b ++ [BOOT_ERROR_start e])%list (launched b) (slept b)) in
  match getattr "app_path" self with
  | Raise e => caught e
  | Return app_path =>
      match popen h [py_str app_path] with
      | Some e => caught e
      | None =>
          let b1 := mkBoot (boot_log b) (launched b ++ [[py_str app_path]])%list
                           (slept b) in
          match getattr "timeout" self with
          | Return (VInt t) =>
              (Return tt, mkBoot (boot_log b1) (launched b1) (slept b1 ++ [t])%list)
          | Return _ =>
              (Return tt,
               mkBoot (boot_log b1 ++ [BOOT_ERROR_start (OtherError "TypeError")])%list
                      (launched b1) (slept b1))
          | Raise e =>
              (Return tt,
               mkBoot (boot_log b1 ++ [BOOT_ERROR_start e])%list (launched b1) (slept b1))
          end
      end
  end.

(** core.py:24-42 *)
Definition __init__ (h : Host) (digicamcontrol_path : string) (timeout : nat)
           (AutoFocus : bool) : Result attrs * Boot :=
  let self := setattr "app_path"
                (VStr (path_join h digicamcontrol_path "CameraControl.exe")) [] in
  let self := setattr "remote_utility"
                (VStr (path_join h digicamcontrol_path "CameraControlRemoteCmd.exe"))
                self in
  let self := setattr "timeout" (VInt timeout) self in
  let self := setattr "callbacks" VEmptyDict self in
  let self := setattr "inLiveViewMode" (VBool false) self in
  let self := setattr "AutoFocus" (VBool AutoFocus) self in
  match getattr "app_path" self with
  | Raise e => (Raise e, boot0)
  | Return app_path =>
      if negb (path_exists h (py_str app_path)) then
        match getattr "digicamcontrol_path" self with
        | Raise e => (Raise e, boot0)
        | Return d =>
            (Raise (ValueError ("Invalid CameraControl application path: " ++ py_str d)),
             boot0)
        end
      else
        match _is_running h "CameraControl.exe" boot0 with
        | (Raise e, b) => (Raise e, b)
        | (Return true, b) => (Return self, b)
        | (Return false, b) =>
            let (_, b') := _start_app h self b in
            (Return self, b')
        end
  end.


(** ** More vocabulary *)

(** [w'] is [w] after some invocations and log records, and nothing
    else: the flags, the path of the relay and the relay are the same. *)
Definition extends (w w' : World) : Prop :=
  inLiveViewMode w' = inLiveViewMode w /\
  AutoFocus w' = AutoFocus w /\
  remote_utility w' = remote_utility w /\
  relay w' = relay w /\
  (exists c, calls w' = (calls w ++ c)%list) /\
  (exists l, log w' = (log w ++ l)%list).

Definition keeps_camera {A} (m : M A) : Prop :=
  forall w, extends w (snd (m w)).

(** More fake machines and relays for concrete runs. *)

Definition windows_join (d name : string) : string := d ++ "\" ++ name.

(** A host where the application is installed and already running. *)
Definition host_running : Host :=
  mkHost windows_join (fun _ => true)
         (Exited0 ("explorer.exe  4100 Console" ++ CRLF ++
                   "CameraControl.exe  5120 Console" ++ CRLF))
         (fun _ => None).


(** A host where it is not installed. *)
Definition host_bare : Host :=
  mkHost windows_join (fun _ => false) (Exited0 "") (fun _ => None).

(** A relay whose capture process fails while [get lastcaptured] still
    answers with the file of an earlier shot. *)
Definition relay_stale : list argv -> argv -> ProcOutcome :=
  fun _ cmd =>
    match cmd with
    | [_; _; "get lastcaptured"] =>
        Exited0 ("response:" ++ DQ ++ "D:\shots\DSC_0001.jpg" ++ DQ ++ ";" ++ CRLF)
    | _ => CalledProcessError 1
    end.

(** A relay that answers everything with nothing, and cannot be
    spawned any more when live view is to be hidden. *)
Definition relay_no_hide : list argv -> argv -> ProcOutcome :=
  fun _ cmd =>
    match cmd with
    | [_; _; "do LiveViewWnd_Hide"] => Failed (OtherError "OSError")
    | _ => Exited0 ""
    end.

(** A relay that cannot be spawned. *)
Definition relay_missing : list argv -> argv -> ProcOutcome :=
  relay_const (Failed (OtherError "FileNotFoundError")).

(** ** Lemmas on the string operations *)

Module PyStrFacts.
Import PyStr.

Lemma drop_0 s : drop 0 s = s.
Proof. destruct s; reflexivity. Qed.

Lemma drop_app p t : drop (String.length p) (p ++ t) = t.
Proof. induction p as [|c p IH]; simpl; [apply drop_0 | exact IH]. Qed.

Lemma startswith_app p t : startswith p (p ++ t) = true.
Proof.
  induction p as [|c p IH]; simpl; [reflexivity|].
  rewrite Ascii.eqb_refl. exact IH.
Qed.

Lemma startswith_inv p : forall s,
  startswith p s = true -> s = p ++ drop (String.length p) s.
Proof.
  induction p as [|c p IH]; intros s H; simpl.
  - reflexivity.
  - destruct s as [|d s]; simpl in H; [discriminate|].
    apply andb_true_iff in H as [Hc Hp].
    apply Ascii.eqb_eq in Hc. subst d.
    simpl. f_equal. now apply IH.
Qed.

Lemma startswith_iff p s :
  startswith p s = true <-> exists t, s = p ++ t.
Proof.
  split.
  - intros H. eexists. now apply startswith_inv.
  - intros [t ->]. apply startswith_app.
Qed.

Lemma app_assoc' (a b c : string) : (a ++ b) ++ c = a ++ b ++ c.
Proof. induction a; simpl; congruence. Qed.

Lemma app_empty_r (a : string) : a ++ "" = a.
Proof. induction a; simpl; congruence. Qed.

Lemma length_app (a b : string) :
  String.length (a ++ b) = String.length a + String.length b.
Proof. induction a; simpl; congruence. Qed.

Lemma contains_startswith sub s :
  startswith sub s = true -> contains sub s = true.
Proof. intros H. destruct s; simpl; rewrite H; reflexivity. Qed.

Lemma contains_iff sub s :
  contains sub s = true <-> exists a b, s = a ++ sub ++ b.
Proof.
  split.
  - induction s as [|c s IH]; simpl; intros H.
    + rewrite orb_false_r in H.
      apply startswith_iff in H as [t Ht]. now exists "", t.
    + apply orb_true_iff in H as [H|H].
      * apply startswith_iff in H as [t Ht]. now exists "", t.
      * destruct (IH H) as (a & b & ->). now exists (String c a), b.
  - intros (a & b & ->). induction a as [|c a IH].
    + change ("" ++ sub ++ b) with (sub ++ b).
      apply contains_startswith. apply startswith_app.
    + change (contains sub (String c a ++ sub ++ b))
        with (startswith sub (String c (a ++ sub ++ b))
              || contains sub (a ++ sub ++ b)).
      rewrite IH. apply orb_true_r.
Qed.

(** *** [partition] finds the leftmost occurrence *)

Lemma partition_None_iff sep s :
  partition sep s = None <-> contains sep s = false.
Proof.
  induction s as [|c s IH]; simpl.
  - destruct (startswith sep ""); simpl; split; congruence.
  - destruct (startswith sep (String c s)); simpl.
    + split; congruence.
    + destruct (partition sep s) as [[a b]|].
      * split; [discriminate|]. intros H. apply IH in H. discriminate.
      * split; [intros _; now apply IH | reflexivity].
Qed.

Lemma partition_sound sep : forall s a b,
  partition sep s = Some (a, b) -> leftmost sep a b s.
Proof.
  induction s as [|c s IH]; simpl; intros a b H.
  - destruct (startswith sep "") eqn:E; [|discriminate].
    inversion H; subst. split; [now apply startswith_inv | simpl; lia].
  - destruct (startswith sep (String c s)) eqn:E.
    + inversion H; subst. split; [now apply startswith_inv | simpl; lia].
    + destruct (partition sep s) as [[a' b']|] eqn:P; [|discriminate].
      inversion H; subst. destruct (IH _ _ eq_refl) as [Hs Hl].
      split; [simpl; now f_equal|].
      intros [|i] Hi; simpl; [exact E|].
      apply Hl. simpl in Hi. lia.
Qed.

Lemma partition_complete sep : forall a b s,
  leftmost sep a b s -> partition sep s = Some (a, b).
Proof.
  induction a as [|c a IH]; intros b s [Hs Hl]; subst s.
  - simpl. destruct (sep ++ b) eqn:E; simpl; rewrite <- E;
      rewrite startswith_app, drop_app; reflexivity.
  - simpl. pose proof (Hl 0 ltac:(simpl; lia)) as H0. simpl in H0.
    rewrite H0. rewrite (IH b (a ++ sep ++ b)); [reflexivity|].
    split; [reflexivity|]. intros i Hi.
    apply (Hl (S i)). simpl. lia.
Qed.

Lemma partition_shorter sep s a b :
  sep <> "" -> partition sep s = Some (a, b) ->
  String.length b < String.length s.
Proof.
  intros Hne H. apply partition_sound in H as [-> _].
  rewrite !length_app. destruct sep; [congruence | simpl; lia].
Qed.

(** *** [split] does not depend on its fuel, once there is enough *)

Lemma split_fuel_enough sep : sep <> "" -> forall f1 f2 s,
  String.length s < f1 -> String.length s < f2 ->
  split_fuel f1 sep s = split_fuel f2 sep s.
Proof.
  intros Hne. induction f1 as [|f1 IH]; intros f2 s H1 H2; [lia|].
  destruct f2 as [|f2]; [lia|]. simpl.
  destruct (partition sep s) as [[a b]|] eqn:P; [|reflexivity].
  f_equal. pose proof (partition_shorter _ _ _ _ Hne P).
  apply IH; lia.
Qed.

Lemma split_unfold sep s :
  sep <> "" ->
  split sep s = match partition sep s with
                | None => [s]
                | Some (a, b) => a :: split sep b
                end.
Proof.
  intros Hne. unfold split at 1.
  change (split_fuel (S (String.length s)) sep s)
    with (match partition sep s with
          | None => [s]
          | Some (a, b) => a :: split_fuel (String.length s) sep b
          end).
  destruct (partition sep s) as [[a b]|] eqn:P; [|reflexivity].
  f_equal. pose proof (partition_shorter _ _ _ _ Hne P).
  unfold split. apply split_fuel_enough; [assumption | lia | lia].
Qed.

Lemma split_absent sep s :
  sep <> "" -> contains sep s = false -> split sep s = [s].
Proof.
  intros Hne H. rewrite split_unfold by assumption.
  apply partition_None_iff in H. now rewrite H.
Qed.

Lemma split_head sep s :
  sep <> "" -> exists x rest, split sep s = x :: rest.
Proof.
  intros Hne. rewrite split_unfold by assumption.
  destruct (partition sep s) as [[a b]|]; eauto.
Qed.

(** [s.split(sep)[1]] is the field after the first [sep]. *)
Lemma split_1_field sep s body :
  sep <> "" -> field sep s body -> nth_error (split sep s) 1 = Some body.
Proof.
  intros Hne (pre & tail & Hl & Hu).
  rewrite split_unfold by assumption.
  rewrite (partition_complete _ _ _ _ Hl). simpl.
  rewrite split_unfold by assumption.
  destruct Hu as [[Hc ->]|[rest Hr]].
  - apply partition_None_iff in Hc. now rewrite Hc.
  - now rewrite (partition_complete _ _ _ _ Hr).
Qed.

Lemma split_1_inv sep s body :
  sep <> "" -> nth_error (split sep s) 1 = Some body -> field sep s body.
Proof.
  intros Hne. rewrite split_unfold by assumption.
  destruct (partition sep s) as [[a b]|] eqn:P; simpl; [|discriminate].
  rewrite split_unfold by assumption.
  destruct (partition sep b) as [[c d]|] eqn:Q; simpl; intros H;
    injection H as <-; exists a, b; split;
    try (now apply partition_sound).
  - right. exists d. now apply partition_sound.
  - left. split; [now apply partition_None_iff | reflexivity].
Qed.

Lemma split_1_absent sep s :
  sep <> "" -> contains sep s = false -> nth_error (split sep s) 1 = None.
Proof. intros Hne H. now rewrite split_absent. Qed.

Lemma split_1_present sep s :
  sep <> "" -> contains sep s = true ->
  exists body, nth_error (split sep s) 1 = Some body.
Proof.
  intros Hne H. rewrite split_unfold by assumption.
  destruct (partition sep s) as [[a b]|] eqn:P.
  - simpl. destruct (split_head sep b Hne) as (x & rest & ->). now exists x.
  - apply partition_None_iff in P. congruence.
Qed.

(** *** [strip] *)

Lemma all_in_app chars a b :
  all_in chars (a ++ b) = all_in chars a && all_in chars b.
Proof.
  induction a as [|c a IH]; simpl; [reflexivity|].
  rewrite IH. apply andb_assoc.
Qed.

Lemma lstrip_spec chars s :
  exists l, s = l ++ lstrip chars s /\ all_in chars l = true /\
            forall c, first_char (lstrip chars s) = Some c ->
                      mem_char c chars = false.
Proof.
  induction s as [|c s (l & Hs & Hl & Hf)]; simpl.
  - exists "". repeat split. discriminate.
  - destruct (mem_char c chars) eqn:E.
    + exists (String c l). simpl. rewrite E, Hl.
      repeat split; [now f_equal | assumption].
    + exists "". repeat split. simpl. intros d [= <-]. exact E.
Qed.

Lemma rstrip_spec chars s :
  exists t, s = rstrip chars s ++ t /\ all_in chars t = true /\
            forall c, last_char (rstrip chars s) = Some c ->
                      mem_char c chars = false.
Proof.
  induction s as [|c s (t & Hs & Ht & Hf)]; simpl.
  - exists "". repeat split. discriminate.
  - destruct (rstrip chars s) as [|d r] eqn:R.
    + simpl in Hs. subst t. destruct (mem_char c chars) eqn:E.
      * exists (String c s). simpl. rewrite E, Ht.
        repeat split. discriminate.
      * exists s. repeat split; [assumption|].
        simpl. intros x [= <-]. exact E.
    + exists t. repeat split; [simpl; now f_equal | assumption |].
      intros x Hx. apply Hf. exact Hx.
Qed.

Lemma rstrip_first chars s c :
  first_char (rstrip chars s) = Some c -> first_char s = Some c.
Proof.
  destruct s as [|d s]; simpl; [discriminate|].
  destruct (rstrip chars s); [destruct (mem_char d chars)|]; simpl; congruence.
Qed.

(** [strip] removes a run of [chars] at each end and no more. *)
Lemma strip_stripped chars s : stripped chars s (strip chars s).
Proof.
  unfold strip.
  destruct (lstrip_spec chars s) as (l & Hs & Hl & Hf).
  destruct (rstrip_spec chars (lstrip chars s)) as (t & Hr & Ht & Hlast).
  repeat split.
  - exists l, t. repeat split; [|assumption..].
    rewrite Hs at 1. now rewrite Hr at 1.
  - intros c Hc. apply Hf. eapply rstrip_first. exact Hc.
  - exact Hlast.
Qed.

Lemma lstrip_all_in chars l s :
  all_in chars l = true -> lstrip chars (l ++ s) = lstrip chars s.
Proof.
  induction l as [|c l IH]; simpl; [reflexivity|].
  intros H. apply andb_true_iff in H as [Hc Hl]. rewrite Hc. now apply IH.
Qed.

Lemma rstrip_all_in chars t :
  all_in chars t = true -> rstrip chars t = "".
Proof.
  induction t as [|c t IH]; simpl; [reflexivity|].
  intros H. apply andb_true_iff in H as [Hc Ht].
  rewrite (IH Ht), Hc. reflexivity.
Qed.

Lemma rstrip_keep chars t : forall r,
  all_in chars t = true ->
  (forall c, last_char r = Some c -> mem_char c chars = false) ->
  rstrip chars (r ++ t) = r.
Proof.
  induction r as [|c r IH]; intros Ht Hlast.
  - now apply rstrip_all_in.
  - simpl. destruct r as [|d r].
    + simpl. rewrite (rstrip_all_in _ _ Ht).
      now rewrite (Hlast c eq_refl).
    + rewrite IH; [reflexivity | assumption |].
      intros x Hx. apply Hlast. exact Hx.
Qed.

(** ... and it is the only text that does. *)
Lemma stripped_unique chars s r : stripped chars s r -> r = strip chars s.
Proof.
  intros [(l & t & -> & Hl & Ht) [Hf Hlast]]. unfold strip.
  rewrite lstrip_all_in by assumption.
  destruct r as [|c r].
  - simpl. rewrite <- (app_empty_r t), lstrip_all_in by assumption.
    reflexivity.
  - change (lstrip chars (String c r ++ t))
      with (if mem_char c chars then lstrip chars (r ++ t)
            else String c r ++ t).
    rewrite (Hf c eq_refl). symmetry. now apply rstrip_keep.
Qed.

(** *** [join] undoes [split] *)

Lemma join_cons sep x y rest :
  join sep (x :: y :: rest) = x ++ sep ++ join sep (y :: rest).
Proof. reflexivity. Qed.

Lemma join_split_fuel sep : sep <> "" -> forall f s,
  String.length s < f -> join sep (split_fuel f sep s) = s.
Proof.
  intros Hne. induction f as [|f IH]; intros s Hf; [lia|]. simpl.
  destruct (partition sep s) as [[a b]|] eqn:P; [|reflexivity].
  pose proof (partition_shorter _ _ _ _ Hne P) as Hb.
  apply partition_sound in P as [-> _].
  assert (Hj : join sep (split_fuel f sep b) = b) by (apply IH; lia).
  destruct (split_fuel f sep b) as [|y rest] eqn:E.
  - destruct f; simpl in E; [discriminate|].
    destruct (partition sep b) as [[? ?]|]; discriminate.
  - rewrite join_cons, Hj. reflexivity.
Qed.

Lemma join_split sep s : sep <> "" -> join sep (split sep s) = s.
Proof. intros Hne. apply join_split_fuel; [assumption | lia]. Qed.

(** *** A text with a single marker *)

Lemma startswith_app_cases p : forall a b,
  startswith p (a ++ b) = true ->
  startswith p a = true \/ exists q, p = a ++ q /\ startswith q b = true.
Proof.
  induction p as [|c p IH]; intros a b H.
  - now left.
  - destruct a as [|d a].
    + right. now exists (String c p).
    + simpl in H. apply andb_true_iff in H as [Hc Hp].
      apply Ascii.eqb_eq in Hc. subst d.
      destruct (IH _ _ Hp) as [Ha|(q & -> & Hq)].
      * left. simpl. now rewrite Ascii.eqb_refl.
      * right. now exists q.
Qed.

Lemma startswith_app_short q : forall s b,
  startswith q (s ++ b) = true -> String.length q <= String.length s ->
  startswith q s = true.
Proof.
  induction q as [|c q IH]; intros s b H Hlen; [reflexivity|].
  destruct s as [|d s]; simpl in Hlen; [lia|].
  simpl in H |- *. apply andb_true_iff in H as [Hc Hq].
  rewrite Hc. simpl. apply (IH _ b); [assumption | lia].
Qed.

Lemma border_free_spec sep k :
  border_free sep = true -> 1 <= k < String.length sep ->
  startswith (drop k sep) sep = false.
Proof.
  unfold border_free. rewrite forallb_forall. intros H Hk.
  apply negb_true_iff, H, in_seq. lia.
Qed.

Lemma length_drop k : forall s, String.length (drop k s) <= String.length s.
Proof.
  induction k as [|k IH]; intros [|c s]; simpl; try lia.
  specialize (IH s). lia.
Qed.

Lemma contains_tail sub c s :
  contains sub (String c s) = false -> contains sub s = false.
Proof. simpl. intros H. now apply orb_false_iff in H as [_ H]. Qed.

Lemma contains_false_startswith sub s :
  contains sub s = false -> startswith sub s = false.
Proof.
  intros H. destruct (startswith sub s) eqn:E; [|reflexivity].
  apply contains_startswith in E. congruence.
Qed.

(** Before a border-free [sep], a text that does not contain it
    cannot start an occurrence either. *)
Lemma no_straddle sep pre tail :
  border_free sep = true -> pre <> "" -> contains sep pre = false ->
  startswith sep (pre ++ sep ++ tail) = false.
Proof.
  intros Hb Hne Hc.
  destruct (startswith sep (pre ++ sep ++ tail)) eqn:E; [|reflexivity].
  exfalso. apply startswith_app_cases in E as [E|(q & Hq & E)].
  - apply contains_startswith in E. congruence.
  - assert (Hlen : String.length sep = String.length pre + String.length q)
      by (rewrite Hq at 1; apply length_app).
    destruct q as [|c q].
    + rewrite app_empty_r in Hq. subst pre.
      rewrite (contains_startswith sep sep) in Hc; [discriminate|].
      rewrite <- (app_empty_r sep) at 2. apply startswith_app.
    + apply startswith_app_short in E; [|simpl in *; lia].
      assert (Hd : drop (String.length pre) sep = String c q)
        by (rewrite Hq at 1; apply drop_app).
      rewrite <- Hd in E.
      rewrite border_free_spec in E; [discriminate | assumption |].
      destruct pre; [congruence | simpl in *; lia].
Qed.

Lemma leftmost_single sep : forall pre tail,
  border_free sep = true -> contains sep pre = false ->
  leftmost sep pre tail (pre ++ sep ++ tail).
Proof.
  intros pre tail Hb. induction pre as [|c pre IH]; intros Hc.
  - split; [reflexivity | simpl; lia].
  - split; [reflexivity|]. intros [|i] Hi.
    + apply no_straddle; [assumption | discriminate | assumption].
    + simpl. apply (IH (contains_tail _ _ _ Hc)). simpl in Hi. lia.
Qed.

(** With one marker in it, the field of a text is all that follows
    the marker. *)
Lemma field_single sep pre body :
  border_free sep = true ->
  contains sep pre = false -> contains sep body = false ->
  field sep (pre ++ sep ++ body) body.
Proof.
  intros Hb Hp Hbody. exists pre, body.
  split; [now apply leftmost_single | left; auto].
Qed.

Lemma field_functional sep s b1 b2 :
  sep <> "" -> field sep s b1 -> field sep s b2 -> b1 = b2.
Proof.
  intros Hne H1 H2.
  apply (split_1_field _ _ _ Hne) in H1, H2. congruence.
Qed.

End PyStrFacts.

(** *** The operations on the texts of the protocol *)

Example split_commas :
  PyStr.split "," "100,200,400" = ["100"; "200"; "400"].
Proof. reflexivity. Qed.

Example split_empty_text : PyStr.split "response:" "" = [""].
Proof. reflexivity. Qed.

Example split_two_markers :
  PyStr.split "response:" "response:a;response:b" = [""; "a;"; "b"].
Proof. reflexivity. Qed.

Example strip_value :
  PyStr.strip chars_value (DQ ++ "1/125" ++ DQ ++ ";" ++ CRLF) = "1/125".
Proof. reflexivity. Qed.

Example strip_keeps_inner :
  PyStr.strip chars_crlf (CRLF ++ "a" ++ CRLF ++ "b" ++ CRLF) = "a" ++ CRLF ++ "b".
Proof. reflexivity. Qed.

Example replace_spaces :
  PyStr.replace " " "_" "Save to PC and camera" = "Save_to_PC_and_camera".
Proof. reflexivity. Qed.

Example replace_quotes :
  PyStr.replace DQ "" (DQ ++ "100" ++ DQ ++ "," ++ DQ ++ "200" ++ DQ) = "100,200".
Proof. reflexivity. Qed.

Example markers_border_free :
  border_free "response:" = true /\ border_free "message:" = true.
Proof. split; reflexivity. Qed.

(** ** Lemmas on [_execute] and the monad *)

Lemma marker_message_nonempty : "message:" <> "".
Proof. discriminate. Qed.

Lemma marker_response_nonempty : "response:" <> "".
Proof. discriminate. Qed.

Lemma execute_printed w command raw :
  relay w (calls w) (invocation w command) = Exited0 raw ->
  _execute command w = (Return raw, executed w command raw).
Proof. intros H. unfold _execute. fold (invocation w command). now rewrite H. Qed.

Lemma execute_nonzero w command rc :
  relay w (calls w) (invocation w command) = CalledProcessError rc ->
  _execute command w =
  (Return "", add_log (ERROR_execute (invocation w command) rc)
                      (add_call (invocation w command) w)).
Proof. intros H. unfold _execute. fold (invocation w command). now rewrite H. Qed.

(** Whatever the relay does, [_execute] makes exactly one invocation and
    leaves the fields of the camera alone. *)
Lemma execute_effect w command :
  let w' := snd (_execute command w) in
  calls w' = (calls w ++ [invocation w command])%list /\
  inLiveViewMode w' = inLiveViewMode w /\
  AutoFocus w' = AutoFocus w /\
  remote_utility w' = remote_utility w /\
  relay w' = relay w.
Proof.
  unfold _execute. fold (invocation w command).
  destruct (relay w (calls w) (invocation w command)); simpl; auto.
Qed.

(** [l[1]] after a [split] at a marker the text does not carry. *)
Lemma subscript_split_absent marker raw w :
  marker <> "" -> PyStr.contains marker raw = false ->
  subscript (PyStr.split marker raw) 1 w = (Raise IndexError, w).
Proof.
  intros Hne H. unfold subscript.
  now rewrite (PyStrFacts.split_1_absent _ _ Hne H).
Qed.

Lemma subscript_split_present marker raw :
  marker <> "" -> PyStr.contains marker raw = true ->
  exists body, field marker raw body /\
               forall w, subscript (PyStr.split marker raw) 1 w = (Return body, w).
Proof.
  intros Hne H.
  destruct (PyStrFacts.split_1_present _ _ Hne H) as [body Hb].
  exists body. split; [now apply PyStrFacts.split_1_inv|].
  intros w. unfold subscript. now rewrite Hb.
Qed.

(** A text that carries neither the error token nor the response marker
    makes [_get] fail on its subscript; the empty text is one. *)
Lemma get_no_marker param w raw :
  relay w (calls w) (invocation w ("get " ++ param)) = Exited0 raw ->
  PyStr.contains "error" raw = false ->
  PyStr.contains "response:" raw = false ->
  fst (_get param w) = Raise IndexError.
Proof.
  intros Hex He Hr. unfold _get, bind.
  rewrite (execute_printed _ _ _ Hex), He.
  now rewrite (subscript_split_absent _ _ _ marker_response_nonempty Hr).
Qed.

(** An error text without the message marker does the same. *)
Lemma get_error_no_message param w raw :
  relay w (calls w) (invocation w ("get " ++ param)) = Exited0 raw ->
  PyStr.contains "error" raw = true ->
  PyStr.contains "message:" raw = false ->
  fst (_get param w) = Raise IndexError.
Proof.
  intros Hex He Hm. unfold _get, bind.
  rewrite (execute_printed _ _ _ Hex), He.
  now rewrite (subscript_split_absent _ _ _ marker_message_nonempty Hm).
Qed.

(** The error branch and the value branch of [_get]. *)
Lemma get_error_branch param w raw :
  relay w (calls w) (invocation w ("get " ++ param)) = Exited0 raw ->
  PyStr.contains "error" raw = true ->
  PyStr.contains "message:" raw = true ->
  exists msg, field "message:" raw msg /\
    _get param w =
    (Return None,
     add_log (ERROR ("Error executing get command: " ++ PyStr.strip chars_crlf msg))
             (executed w ("get " ++ param) raw)).
Proof.
  intros Hex He Hm.
  destruct (subscript_split_present _ _ marker_message_nonempty Hm)
    as (msg & Hf & Hsub).
  exists msg. split; [exact Hf|].
  unfold _get, bind. rewrite (execute_printed _ _ _ Hex), He, Hsub.
  reflexivity.
Qed.

Lemma get_value_branch param w raw :
  relay w (calls w) (invocation w ("get " ++ param)) = Exited0 raw ->
  PyStr.contains "error" raw = false ->
  PyStr.contains "response:" raw = true ->
  exists body, field "response:" raw body /\
    _get param w = (Return (Some (PyStr.strip chars_value body)),
                    executed w ("get " ++ param) raw).
Proof.
  intros Hex He Hr.
  destruct (subscript_split_present _ _ marker_response_nonempty Hr)
    as (body & Hf & Hsub).
  exists body. split; [exact Hf|].
  unfold _get, bind. rewrite (execute_printed _ _ _ Hex), He, Hsub.
  reflexivity.
Qed.

(** On a text with one response marker and no error token, [_get]
    returns all that follows the marker, stripped. *)
Lemma get_single_marker param w pre body :
  relay w (calls w) (invocation w ("get " ++ param)) =
    Exited0 (pre ++ "response:" ++ body) ->
  PyStr.contains "error" (pre ++ "response:" ++ body) = false ->
  PyStr.contains "response:" pre = false ->
  PyStr.contains "response:" body = false ->
  fst (_get param w) = Return (Some (PyStr.strip chars_value body)).
Proof.
  intros Hex He Hp Hb.
  assert (Hf : field "response:" (pre ++ "response:" ++ body) body)
    by (apply PyStrFacts.field_single; auto).
  destruct (get_value_branch param w _ Hex He) as (body' & Hf' & Hrun).
  - apply PyStrFacts.contains_iff. now exists pre, body.
  - rewrite Hrun.
    now rewrite (PyStrFacts.field_functional _ _ _ _ marker_response_nonempty Hf' Hf).
Qed.

(** There the method and the rule of the specification agree. *)
Lemma get_agrees_on_single_marker param w pre body :
  relay w (calls w) (invocation w ("get " ++ param)) =
    Exited0 (pre ++ "response:" ++ body) ->
  PyStr.contains "error" (pre ++ "response:" ++ body) = false ->
  PyStr.contains "response:" pre = false ->
  PyStr.contains "response:" body = false ->
  fst (_get param w) = Return (Spec.get_value (pre ++ "response:" ++ body)).
Proof.
  intros Hex He Hp Hb.
  rewrite (get_single_marker param w pre body Hex He Hp Hb).
  unfold Spec.get_value, Spec.following. rewrite He.
  rewrite (PyStrFacts.partition_complete "response:" pre body); [reflexivity|].
  now apply PyStrFacts.leftmost_single.
Qed.

(** ** The properties *)

(** C4.  When the child process exits non-zero ([CalledProcessError]),
    [_execute] raises nothing: it returns the empty text, after one
    invocation and one error record in the log.  There is no path on
    which that failure is raised again. *)
Theorem execute_nonzero_returns_empty w command rc :
  relay w (calls w) (invocation w command) = CalledProcessError rc ->
  fst (_execute command w) = Return "" /\
  log (snd (_execute command w)) =
    (log w ++ [ERROR_execute (invocation w command) rc])%list /\
  calls (snd (_execute command w)) = (calls w ++ [invocation w command])%list.
Proof.
  intros H. rewrite (execute_nonzero _ _ _ H). simpl. auto.
Qed.

Lemma execute_nonzero_returns_empty_witness :
  fst (_execute "get iso" (fresh (relay_const (CalledProcessError 1)))) = Return "" /\
  log (snd (_execute "get iso" (fresh (relay_const (CalledProcessError 1))))) =
    [ERROR_execute
       ["C:\Program Files (x86)\digiCamControl\CameraControlRemoteCmd.exe";
        "/c"; "get iso"] 1].
Proof.
  destruct (execute_nonzero_returns_empty
              (fresh (relay_const (CalledProcessError 1))) "get iso" 1 eq_refl)
    as (H1 & H2 & _).
  split; [exact H1 | exact H2].
Defined.

(** C1, as amended.  Let the relay print [raw] for [get param].
    If [raw] carries the error token and the message marker, [_get] logs
    the field after the first message marker (the text up to the next
    message marker or the end of [raw]) with the line-break characters
    stripped from both its ends, and returns [None].  If [raw] carries no
    error token but the response marker, [_get] returns the field after
    the first response marker with quote, semicolon and line-break
    characters stripped from both its ends.  On the text
    response:"1/125"; followed by CR LF it returns 1/125. *)
Theorem get_parses param w raw :
  relay w (calls w) (invocation w ("get " ++ param)) = Exited0 raw ->
  let w1 := executed w ("get " ++ param) raw in
  (PyStr.contains "error" raw = true ->
   PyStr.contains "message:" raw = true ->
   exists msg, field "message:" raw msg /\
     _get param w =
     (Return None,
      add_log (ERROR ("Error executing get command: " ++ PyStr.strip chars_crlf msg)) w1)) /\
  (PyStr.contains "error" raw = false ->
   PyStr.contains "response:" raw = true ->
   exists body, field "response:" raw body /\
     _get param w = (Return (Some (PyStr.strip chars_value body)), w1)) /\
  (raw = "response:" ++ DQ ++ "1/125" ++ DQ ++ ";" ++ CRLF ->
   fst (_get param w) = Return (Some "1/125")).
Proof.
  intros Hex w1. repeat split.
  - intros He Hm. now apply get_error_branch.
  - intros He Hr. now apply get_value_branch.
  - intros ->. unfold _get, bind. rewrite (execute_printed _ _ _ Hex).
    reflexivity.
Qed.

Lemma get_parses_witness :
  fst (_get "shutterspeed"
         (fresh (relay_print ("response:" ++ DQ ++ "1/125" ++ DQ ++ ";" ++ CRLF))))
  = Return (Some "1/125") /\
  _get "iso" (fresh (relay_print ("error;message:No such property" ++ CRLF))) =
  (Return None,
   add_log (ERROR "Error executing get command: No such property")
     (executed (fresh (relay_print ("error;message:No such property" ++ CRLF)))
        "get iso" ("error;message:No such property" ++ CRLF))).
Proof.
  split.
  - apply (get_parses "shutterspeed"
             (fresh (relay_print ("response:" ++ DQ ++ "1/125" ++ DQ ++ ";" ++ CRLF)))
             ("response:" ++ DQ ++ "1/125" ++ DQ ++ ";" ++ CRLF) eq_refl).
    reflexivity.
  - destruct (get_parses "iso"
                (fresh (relay_print ("error;message:No such property" ++ CRLF)))
                ("error;message:No such property" ++ CRLF) eq_refl)
      as (Herr & _ & _).
    destruct (Herr eq_refl eq_refl) as (msg & Hf & Hrun).
    pose proof (PyStrFacts.split_1_field _ _ _ marker_message_nonempty Hf) as E.
    vm_compute in E. injection E as <-. exact Hrun.
Defined.

(** C1 as stated fails.  An error text whose message runs over two
    lines: the specification's rule logs the message up to the first line
    break, [_get] logs both lines.  And the empty text, which carries no
    error token: [_get] returns no value, it raises. *)
Lemma get_parses_counterexample :
  let raw := "error;message:No such property" ++ CRLF ++ "Try list" ++ CRLF in
  log (snd (_get "iso" (fresh (relay_print raw)))) =
    [INFO_execute (invocation (fresh (relay_print raw)) "get iso") raw;
     ERROR ("Error executing get command: " ++
            "No such property" ++ CRLF ++ "Try list")] /\
  Spec.message raw = "No such property" /\
  Spec.message raw <> "No such property" ++ CRLF ++ "Try list" /\
  fst (_get "iso" (fresh (relay_print ""))) = Raise IndexError.
Proof. repeat split. discriminate. Qed.

(** C2, as amended.  Let the relay print [raw] for [list param].
    If [raw] carries the error token and the message marker, [_list]
    returns the empty sequence (and logs the message).  If [raw] carries
    no error token but the response marker, [_list] takes the field after
    the first response marker (up to the next response marker or the end
    of [raw]), strips bracket, semicolon and line-break characters from
    both its ends, removes the quote characters and splits at the commas,
    in the order of the text.  On the text response:["100","200","400"];
    followed by CR LF it returns 100, 200, 400. *)
Theorem list_parses param w raw :
  relay w (calls w) (invocation w ("list " ++ param)) = Exited0 raw ->
  let w1 := executed w ("list " ++ param) raw in
  (PyStr.contains "error" raw = true ->
   PyStr.contains "message:" raw = true ->
   exists msg, field "message:" raw msg /\
     _list param w =
     (Return [],
      add_log (ERROR ("Error executing list command: " ++ PyStr.strip chars_crlf msg)) w1)) /\
  (PyStr.contains "error" raw = false ->
   PyStr.contains "response:" raw = true ->
   exists body, field "response:" raw body /\
     _list param w =
     (Return (PyStr.split "," (PyStr.replace DQ "" (PyStr.strip chars_list body))), w1)) /\
  (raw = "response:[" ++ DQ ++ "100" ++ DQ ++ "," ++ DQ ++ "200" ++ DQ ++ ","
                      ++ DQ ++ "400" ++ DQ ++ "];" ++ CRLF ->
   fst (_list param w) = Return ["100"; "200"; "400"]).
Proof.
  intros Hex w1. repeat split.
  - intros He Hm.
    destruct (subscript_split_present _ _ marker_message_nonempty Hm)
      as (msg & Hf & Hsub).
    exists msg. split; [exact Hf|].
    unfold _list, bind. rewrite (execute_printed _ _ _ Hex), He, Hsub.
    reflexivity.
  - intros He Hr.
    destruct (subscript_split_present _ _ marker_response_nonempty Hr)
      as (body & Hf & Hsub).
    exists body. split; [exact Hf|].
    unfold _list, bind. rewrite (execute_printed _ _ _ Hex), He, Hsub.
    reflexivity.
  - intros ->. unfold _list, bind. rewrite (execute_printed _ _ _ Hex).
    reflexivity.
Qed.

Lemma list_parses_witness :
  fst (_list "iso"
         (fresh (relay_print
                   ("response:[" ++ DQ ++ "100" ++ DQ ++ "," ++ DQ ++ "200" ++ DQ ++ ","
                    ++ DQ ++ "400" ++ DQ ++ "];" ++ CRLF))))
  = Return ["100"; "200"; "400"] /\
  fst (_list "iso" (fresh (relay_print ("error;message:No such property" ++ CRLF))))
  = Return [].
Proof.
  split.
  - apply (list_parses "iso"
             (fresh (relay_print
                       ("response:[" ++ DQ ++ "100" ++ DQ ++ "," ++ DQ ++ "200" ++ DQ ++ ","
                        ++ DQ ++ "400" ++ DQ ++ "];" ++ CRLF)))
             _ eq_refl).
    reflexivity.
  - destruct (list_parses "iso"
                (fresh (relay_print ("error;message:No such property" ++ CRLF)))
                ("error;message:No such property" ++ CRLF) eq_refl)
      as (Herr & _ & _).
    destruct (Herr eq_refl eq_refl) as (msg & _ & Hrun).
    now rewrite Hrun.
Defined.

(** C2 as stated fails.  A text with two response markers: the
    substring following the marker runs to the end of the text, [_list]
    stops at the second marker.  And a text with the error token and no
    message marker: [_list] does not return the empty sequence, it
    raises. *)
Lemma list_parses_counterexample :
  let raw := "response:[" ++ DQ ++ "100" ++ DQ ++ "];" ++ CRLF ++
             "response:[" ++ DQ ++ "200" ++ DQ ++ "];" ++ CRLF in
  fst (_list "iso" (fresh (relay_print raw))) = Return ["100"] /\
  Spec.list_values raw = ["100];" ++ CRLF ++ "response:[200"] /\
  fst (_list "iso" (fresh (relay_print "error"))) = Raise IndexError /\
  Spec.list_values "error" = [].
Proof. repeat split. Qed.

(** The command [startRecording] issues in world [w] (core.py:363). *)
Lemma startRecording_unfold w :
  startRecording w =
  (response <- _execute (if inLiveViewMode w then "do LiveViewWnd_StartRecord"
                         else "do StartRecord") ;;
   seg <- subscript (PyStr.split "response:" response) 1 ;;
   if String.eqb (PyStr.strip chars_value seg) "" then ret true
   else
     logging_error ("Error starting video recording: " ++ PyStr.strip chars_value seg) ;;
     ret false) w.
Proof. reflexivity. Qed.

(** C5, as amended.  Let the relay print [raw] for the start-record
    command, and let [raw] carry the response marker.  The response body
    is the field after the first response marker (up to the next response
    marker or the end of [raw]) with quote, semicolon and line-break
    characters stripped from both its ends.  [startRecording] returns
    [true] exactly when that body is empty, and otherwise returns [false]
    after logging the body as the failure message. *)
Theorem startRecording_discriminates w raw :
  let command := if inLiveViewMode w then "do LiveViewWnd_StartRecord"
                 else "do StartRecord" in
  relay w (calls w) (invocation w command) = Exited0 raw ->
  PyStr.contains "response:" raw = true ->
  exists body, field "response:" raw body /\
    let text := PyStr.strip chars_value body in
    let w1 := executed w command raw in
    (text = "" -> startRecording w = (Return true, w1)) /\
    (text <> "" ->
     startRecording w =
     (Return false, add_log (ERROR ("Error starting video recording: " ++ text)) w1)) /\
    (fst (startRecording w) = Return true <-> text = "").
Proof.
  intros command Hex Hr.
  destruct (subscript_split_present _ _ marker_response_nonempty Hr)
    as (body & Hf & Hsub).
  exists body. split; [exact Hf|]. intros text w1.
  assert (Hrun : startRecording w =
                 if String.eqb text ""
                 then (Return true, w1)
                 else (Return false,
                       add_log (ERROR ("Error starting video recording: " ++ text)) w1)).
  { rewrite startRecording_unfold. unfold bind.
    fold command. rewrite (execute_printed _ _ _ Hex), Hsub.
    fold text. destruct (String.eqb text ""); reflexivity. }
  rewrite Hrun. destruct (String.eqb_spec text "") as [E|E].
  - repeat split; auto. intros. contradiction.
  - repeat split; try discriminate; intros; try reflexivity; contradiction.
Qed.

Lemma startRecording_discriminates_witness :
  fst (startRecording (fresh (relay_print ("response:" ++ DQ ++ DQ ++ ";" ++ CRLF))))
  = Return true.
Proof.
  destruct (startRecording_discriminates
              (fresh (relay_print ("response:" ++ DQ ++ DQ ++ ";" ++ CRLF)))
              ("response:" ++ DQ ++ DQ ++ ";" ++ CRLF) eq_refl eq_refl)
    as (body & Hf & _ & _ & H).
  apply H.
  pose proof (PyStrFacts.split_1_field _ _ _ marker_response_nonempty Hf) as E.
  vm_compute in E. injection E as <-. reflexivity.
Defined.

(** C5 as stated fails.  A text with two response markers: everything
    after the marker is not empty, yet [startRecording] looks at the
    field up to the second marker, finds it empty and returns [true].
    And the empty text, as [_execute] returns it after a failed process:
    [startRecording] returns neither [true] nor [false], it raises. *)
Lemma startRecording_discriminates_counterexample :
  let raw := "response:" ++ CRLF ++
             "response:" ++ DQ ++ "Camera is busy" ++ DQ ++ ";" ++ CRLF in
  fst (startRecording (fresh (relay_print raw))) = Return true /\
  Spec.body raw = "response:" ++ DQ ++ "Camera is busy" /\
  Spec.startRecording raw = false /\
  fst (startRecording (fresh (relay_print ""))) = Raise IndexError /\
  fst (startRecording (fresh (relay_const (CalledProcessError 1)))) = Raise IndexError.
Proof. repeat split. Qed.

(** C3, the code at the failing input.  When the relay process exits
    non-zero, [_execute] hands the empty text to its caller, and each of
    [_get], [_set] and [_list] then raises [IndexError] on the subscript
    of its [split]. *)
Theorem primitives_raise_after_process_failure w param value rc :
  (forall command, relay w (calls w) (invocation w command) = CalledProcessError rc) ->
  fst (_get param w) = Raise IndexError /\
  fst (_set param value w) = Raise IndexError /\
  fst (_list param w) = Raise IndexError.
Proof.
  intros H. repeat split.
  - unfold _get, bind. rewrite (execute_nonzero _ _ _ (H _)). reflexivity.
  - unfold _set, bind. rewrite (execute_nonzero _ _ _ (H _)). reflexivity.
  - unfold _list, bind. rewrite (execute_nonzero _ _ _ (H _)). reflexivity.
Qed.

Lemma primitives_raise_after_process_failure_witness :
  fst (_get "iso" (fresh (relay_const (CalledProcessError 1)))) = Raise IndexError /\
  fst (_set "iso" "400" (fresh (relay_const (CalledProcessError 1)))) = Raise IndexError /\
  fst (_list "iso" (fresh (relay_const (CalledProcessError 1)))) = Raise IndexError.
Proof.
  apply (primitives_raise_after_process_failure
           (fresh (relay_const (CalledProcessError 1))) "iso" "400" 1).
  intros command. reflexivity.
Defined.

(** The same on texts the relay prints: a value that happens to hold
    the error token, with no message marker around it. *)
Lemma get_raises_on_value_with_error_token :
  fst (_get "session.name"
         (fresh (relay_print ("response:" ++ DQ ++ "error_frames" ++ DQ ++ ";" ++ CRLF))))
  = Raise IndexError.
Proof. reflexivity. Qed.

(** C10.  When the relay answers [get transfer] with a text that
    carries the error token, reading [Transfer] raises: where the text
    has its message marker, [_get] returns [None] and the replace on it
    is an [AttributeError]; where it has none, [_get] itself raises. *)
Theorem Transfer_raises_on_error w raw :
  relay w (calls w) (invocation w "get transfer") = Exited0 raw ->
  PyStr.contains "error" raw = true ->
  (exists e, fst (Transfer w) = Raise e) /\
  (PyStr.contains "message:" raw = true ->
   fst (_get "transfer" w) = Return None /\
   fst (Transfer w) = Raise AttributeError).
Proof.
  intros Hex He.
  destruct (PyStr.contains "message:" raw) eqn:Hm.
  - destruct (get_error_branch "transfer" w raw Hex He Hm) as (msg & _ & Hget).
    assert (Ht : fst (Transfer w) = Raise AttributeError).
    { unfold Transfer, bind. rewrite Hget. reflexivity. }
    split; [eauto|]. intros _. rewrite Hget. auto.
  - split; [|discriminate].
    exists IndexError. unfold Transfer, bind.
    pose proof (get_error_no_message "transfer" w raw Hex He Hm) as Hget.
    destruct (_get "transfer" w) as [[v|e] w']; simpl in Hget; [discriminate|].
    simpl. now injection Hget as ->.
Qed.

Lemma Transfer_raises_on_error_witness :
  fst (Transfer (fresh (relay_print ("error;message:Camera not connected" ++ CRLF))))
  = Raise AttributeError.
Proof.
  apply (Transfer_raises_on_error
           (fresh (relay_print ("error;message:Camera not connected" ++ CRLF)))
           ("error;message:Camera not connected" ++ CRLF) eq_refl eq_refl).
  reflexivity.
Defined.

(** ** The action methods *)

Lemma capture_command_appended live af location :
  capture_command live af location =
  (if live then "do LiveView_Capture"
   else if af then "Capture" else "CaptureNoAf") ++ appended location.
Proof.
  destruct location as [[|c l]|]; destruct live, af; reflexivity.
Qed.

Lemma invocation_executed w command raw c :
  invocation (executed w command raw) c = invocation w c.
Proof. reflexivity. Qed.

Lemma LastCaptured_calls w :
  calls (snd (LastCaptured w)) = (calls w ++ [invocation w "get lastcaptured"])%list.
Proof.
  unfold LastCaptured, bind, _execute. fold (invocation w "get lastcaptured").
  destruct (relay w (calls w) (invocation w "get lastcaptured")) as [raw|rc|e];
    try reflexivity.
  destruct (PyStr.contains "error" raw); unfold subscript.
  - destruct (nth_error (PyStr.split "message:" raw) 1); reflexivity.
  - destruct (nth_error (PyStr.split "response:" raw) 1); reflexivity.
Qed.

(** C6.  The first process invocation of [capture] carries the command
    the two flags select: the live-view capture verb when
    [inLiveViewMode] is set, whatever [AutoFocus] is; otherwise the
    autofocus verb when [AutoFocus] is set and the no-autofocus verb when
    it is not.  A destination that is given (and not empty) follows the
    verb unchanged, after one space.  Nothing comes after that invocation
    but, at most, the query of the last captured file. *)
Theorem capture_selects_verb w location :
  exists command rest,
    calls (snd (capture location w)) = (calls w ++ invocation w command :: rest)%list /\
    (rest = [] \/ rest = [invocation w "get lastcaptured"]) /\
    (inLiveViewMode w = false -> AutoFocus w = true ->
     command = "Capture" ++ appended location) /\
    (inLiveViewMode w = false -> AutoFocus w = false ->
     command = "CaptureNoAf" ++ appended location) /\
    (inLiveViewMode w = true ->
     command = "do LiveView_Capture" ++ appended location).
Proof.
  set (command := capture_command (inLiveViewMode w) (AutoFocus w) location).
  assert (Hrun : exists rest,
             calls (snd (capture location w)) =
               (calls w ++ invocation w command :: rest)%list /\
             (rest = [] \/ rest = [invocation w "get lastcaptured"])).
  { unfold capture, bind. fold command.
    pose proof (execute_effect w command) as (Hc & _ & _ & Hu & _).
    destruct (_execute command w) as [[response|e] w1]; simpl in Hc, Hu.
    - destruct (PyStr.contains "error" response).
      + exists []. split; [|now left]. unfold subscript.
        destruct (nth_error (PyStr.split "message:" response) 1); exact Hc.
      + exists [invocation w "get lastcaptured"]. split; [|now right].
        rewrite LastCaptured_calls, Hc. unfold invocation. rewrite Hu.
        now rewrite <- app_assoc.
    - exists []. split; [exact Hc | now left]. }
  destruct Hrun as (rest & Hcalls & Hrest).
  exists command, rest. split; [exact Hcalls|]. split; [exact Hrest|].
  unfold command. rewrite capture_command_appended.
  repeat split; intros; repeat match goal with H : _ = _ |- _ => rewrite H end;
    reflexivity.
Qed.

Lemma capture_selects_verb_witness :
  exists rest,
    calls (snd (capture (Some "D:\shots")
                  (fresh (relay_print ("response:" ++ DQ ++ DQ ++ ";" ++ CRLF))))) =
    ["C:\Program Files (x86)\digiCamControl\CameraControlRemoteCmd.exe";
     "/c"; "Capture D:\shots"] :: rest.
Proof.
  destruct (capture_selects_verb
              (fresh (relay_print ("response:" ++ DQ ++ DQ ++ ";" ++ CRLF)))
              (Some "D:\shots"))
    as (command & rest & Hcalls & _ & Haf & _ & _).
  exists rest. rewrite Hcalls, (Haf eq_refl eq_refl). reflexivity.
Defined.

(** C7.  Outside live view, [focus] makes no process invocation, logs
    one error and returns without raising.  In live view it makes one
    invocation, the live-view focus command. *)
Theorem focus_needs_live_view w :
  (inLiveViewMode w = false ->
   focus w =
   (Return tt,
    add_log (ERROR "Error: Camera is not in live view mode. Cannot execute focus command.") w)
   /\ calls (snd (focus w)) = calls w) /\
  (inLiveViewMode w = true ->
   calls (snd (focus w)) = (calls w ++ [invocation w "do LiveView_Focus"])%list).
Proof.
  split; intros H; unfold focus; rewrite H.
  - split; reflexivity.
  - unfold bind.
    pose proof (execute_effect w "do LiveView_Focus") as (Hc & _).
    destruct (_execute "do LiveView_Focus" w) as [[r|e] w1]; exact Hc.
Qed.

Lemma focus_needs_live_view_witness :
  calls (snd (focus (fresh (relay_print "")))) = [] /\
  fst (focus (fresh (relay_print ""))) = Return tt /\
  calls (snd (focus (set_inLiveViewMode true (fresh (relay_print ""))))) =
    [["C:\Program Files (x86)\digiCamControl\CameraControlRemoteCmd.exe";
      "/c"; "do LiveView_Focus"]].
Proof.
  destruct (focus_needs_live_view (fresh (relay_print ""))) as (Hoff & _).
  destruct (focus_needs_live_view (set_inLiveViewMode true (fresh (relay_print ""))))
    as (_ & Hon).
  destruct (Hoff eq_refl) as (Hrun & Hcalls).
  split; [exact Hcalls|]. split; [now rewrite Hrun | exact (Hon eq_refl)].
Defined.

(** ** Transfer mode *)

Lemma set_calls param value w :
  calls (snd (_set param value w)) =
  (calls w ++ [invocation w ("set " ++ param ++ " " ++ value)])%list.
Proof.
  unfold _set, bind.
  pose proof (execute_effect w ("set " ++ param ++ " " ++ value)) as (Hc & _).
  destruct (_execute ("set " ++ param ++ " " ++ value) w)
    as [[response|e] w1]; cbn [snd] in Hc; [|exact Hc].
  destruct (PyStr.contains "error" response); unfold subscript.
  - destruct (nth_error (PyStr.split "message:" response) 1); exact Hc.
  - destruct (nth_error (PyStr.split "response:" response) 1); exact Hc.
Qed.

Lemma TransferMode_call_display m w :
  TransferMode_call (PyStr.replace " " "_" (TransferMode_display m)) w = (Return m, w).
Proof. destruct m; reflexivity. Qed.

(** C8.  [TransferMode] has exactly three members, with three distinct
    values.  Writing [Transfer] sends the value, its underscore form, in
    one [set transfer] command.  If the write returns and the relay then
    answers [get transfer] with that value, underscores rendered as
    spaces, reading [Transfer] turns the spaces back into underscores and
    returns the member that was written. *)
Theorem Transfer_roundtrip :
  (forall m, m = PC \/ m = CAMERA \/ m = BOTH) /\
  (forall m m', TransferMode_value m = TransferMode_value m' -> m = m') /\
  (forall m w,
     calls (snd (set_Transfer m w)) =
       (calls w ++ [invocation w ("set transfer " ++ TransferMode_value m)])%list) /\
  (forall m w w1,
     set_Transfer m w = (Return tt, w1) ->
     fst (_get "transfer" w1) = Return (Some (TransferMode_display m)) ->
     fst (Transfer w1) = Return m /\
     fst ((set_Transfer m ;; Transfer) w) = Return m).
Proof.
  split; [intros []; auto|].
  split; [intros [] []; simpl; intros H; try reflexivity; discriminate|].
  split.
  - intros m w. unfold set_Transfer, bind.
    pose proof (set_calls "transfer" (TransferMode_value m) w) as Hc.
    destruct (_set "transfer" (TransferMode_value m) w) as [[r|e] w1]; exact Hc.
  - intros m w w1 Hset Hget.
    assert (Hread : fst (Transfer w1) = Return m).
    { unfold Transfer, bind.
      destruct (_get "transfer" w1) as [[v|e] w2]; simpl in Hget; [|discriminate].
      injection Hget as ->. now rewrite TransferMode_call_display. }
    split; [exact Hread|].
    unfold bind at 1. rewrite Hset. exact Hread.
Qed.

Lemma Transfer_roundtrip_witness :
  fst ((set_Transfer BOTH ;; Transfer) (fresh relay_echo)) = Return BOTH /\
  fst ((set_Transfer PC ;; Transfer) (fresh relay_echo)) = Return PC /\
  fst ((set_Transfer CAMERA ;; Transfer) (fresh relay_echo)) = Return CAMERA.
Proof.
  destruct Transfer_roundtrip as (_ & _ & _ & H).
  split; [|split].
  - exact (proj2 (H BOTH (fresh relay_echo)
                    (snd (set_Transfer BOTH (fresh relay_echo))) eq_refl eq_refl)).
  - exact (proj2 (H PC (fresh relay_echo)
                    (snd (set_Transfer PC (fresh relay_echo))) eq_refl eq_refl)).
  - exact (proj2 (H CAMERA (fresh relay_echo)
                    (snd (set_Transfer CAMERA (fresh relay_echo))) eq_refl eq_refl)).
Defined.

(** ** The live-view bracket *)

Lemma stopLiveView_effect w :
  inLiveViewMode (snd (stopLiveView w)) = false /\
  calls (snd (stopLiveView w)) = (calls w ++ [invocation w "do LiveViewWnd_Hide"])%list.
Proof.
  unfold stopLiveView, bind.
  pose proof (execute_effect (set_inLiveViewMode false w) "do LiveViewWnd_Hide")
    as (Hc & Hl & _).
  destruct (_execute "do LiveViewWnd_Hide" (set_inLiveViewMode false w))
    as [[r|e] w1]; simpl in *; auto.
Qed.

Lemma startLiveView_effect w w1 :
  startLiveView w = (Return tt, w1) ->
  inLiveViewMode w1 = true /\
  calls w1 = (calls w ++ [invocation w "do LiveViewWnd_Show";
                          invocation w "do All_Minimize"])%list.
Proof.
  unfold startLiveView, minimizeAll, bind.
  pose proof (execute_effect (set_inLiveViewMode true w) "do LiveViewWnd_Show")
    as (Hc & Hl & _ & Hu & _).
  destruct (_execute "do LiveViewWnd_Show" (set_inLiveViewMode true w))
    as [[r|e] wa]; simpl in Hc, Hl, Hu; [|discriminate].
  pose proof (execute_effect wa "do All_Minimize") as (Hc' & Hl' & _).
  destruct (_execute "do All_Minimize" wa) as [[r'|e'] wb];
    simpl in Hc', Hl'; [|discriminate].
  intros [= <-]. split; [congruence|].
  rewrite Hc', Hc. unfold invocation. rewrite Hu. simpl.
  now rewrite <- app_assoc.
Qed.

(** C9.  Once [liveView] has entered (live view started: the flag
    set, the show and minimize commands issued), it ends with the flag
    reset to [false] and the hide command as its last invocation,
    whether the wrapped operation returned or raised; and when the stop
    itself returns, the outcome of the wrapped operation, value or
    exception, is the outcome of the bracket. *)
Theorem liveView_always_stops (A : Type) (body : M A) w w1 :
  startLiveView w = (Return tt, w1) ->
  (inLiveViewMode w1 = true /\
   calls w1 = (calls w ++ [invocation w "do LiveViewWnd_Show";
                           invocation w "do All_Minimize"])%list) /\
  let w2 := snd (body w1) in
  let w3 := snd (liveView body w) in
  inLiveViewMode w3 = false /\
  calls w3 = (calls w2 ++ [invocation w2 "do LiveViewWnd_Hide"])%list /\
  (fst (stopLiveView w2) = Return tt -> fst (liveView body w) = fst (body w1)).
Proof.
  intros Hstart. split; [now apply startLiveView_effect|].
  intros w2 w3. unfold w3, w2, liveView. rewrite Hstart.
  destruct (body w1) as [r wb]. simpl.
  pose proof (stopLiveView_effect wb) as (Hflag & Hcalls).
  destruct (stopLiveView wb) as [[[]|e] wc]; simpl in *.
  - auto.
  - repeat split; auto. discriminate.
Qed.

Lemma liveView_always_stops_witness :
  inLiveViewMode
    (snd (liveView (@raise unit (OtherError "KeyboardInterrupt")) (fresh relay_echo)))
  = false /\
  fst (liveView (@raise unit (OtherError "KeyboardInterrupt")) (fresh relay_echo))
  = Raise (OtherError "KeyboardInterrupt").
Proof.
  destruct (liveView_always_stops unit (raise (OtherError "KeyboardInterrupt"))
              (fresh relay_echo) (snd (startLiveView (fresh relay_echo))) eq_refl)
    as (_ & Hflag & _ & Hres).
  split; [exact Hflag | exact (Hres eq_refl)].
Defined.

(** ** Further properties of the methods *)

(** *** What the methods leave alone *)

Lemma extends_refl w : extends w w.
Proof.
  repeat split; try reflexivity; exists []; now rewrite app_nil_r.
Qed.

Lemma extends_trans a b c : extends a b -> extends b c -> extends a c.
Proof.
  intros (H1 & H2 & H3 & H4 & [c1 H5] & [l1 H6])
         (K1 & K2 & K3 & K4 & [c2 K5] & [l2 K6]).
  repeat split; try congruence.
  - exists (c1 ++ c2)%list. rewrite K5, H5. now rewrite <- app_assoc.
  - exists (l1 ++ l2)%list. rewrite K6, H6. now rewrite <- app_assoc.
Qed.

Lemma keeps_ret A (a : A) : keeps_camera (ret a).
Proof. intros w. apply extends_refl. Qed.

Lemma keeps_raise A e : keeps_camera (@raise A e).
Proof. intros w. apply extends_refl. Qed.

Lemma keeps_subscript A (l : list A) i : keeps_camera (subscript l i).
Proof.
  intros w. unfold subscript. destruct (nth_error l i); apply extends_refl.
Qed.

Lemma keeps_logging_error message : keeps_camera (logging_error message).
Proof.
  intros w. repeat split; simpl; try reflexivity.
  - exists []. now rewrite app_nil_r.
  - now exists [ERROR message].
Qed.

Lemma keeps_execute command : keeps_camera (_execute command).
Proof.
  intros w. unfold _execute.
  destruct (relay w (calls w) [remote_utility w; "/c"; command]);
    repeat split; simpl; try reflexivity; eauto.
  exists []. now rewrite app_nil_r.
Qed.

Lemma keeps_bind A B (m : M A) (k : A -> M B) :
  keeps_camera m -> (forall a, keeps_camera (k a)) -> keeps_camera (bind m k).
Proof.
  intros Hm Hk w. unfold bind. specialize (Hm w).
  destruct (m w) as [[a|e] w1]; simpl in Hm; [|exact Hm].
  eapply extends_trans; [exact Hm | apply Hk].
Qed.

Lemma keeps_if A (c : bool) (m1 m2 : M A) :
  keeps_camera m1 -> keeps_camera m2 -> keeps_camera (if c then m1 else m2).
Proof. destruct c; auto. Qed.

Ltac keeps := repeat (intros; first
  [ apply keeps_bind | apply keeps_if | apply keeps_execute | apply keeps_ret
  | apply keeps_raise | apply keeps_subscript | apply keeps_logging_error ]).

Lemma keeps_get param : keeps_camera (_get param).
Proof. unfold _get. keeps. Qed.

Lemma keeps_set param value : keeps_camera (_set param value).
Proof. unfold _set. keeps. Qed.

Lemma keeps_list param : keeps_camera (_list param).
Proof. unfold _list. keeps. Qed.

Lemma keeps_LastCaptured : keeps_camera LastCaptured.
Proof. unfold LastCaptured. keeps. Qed.

Lemma keeps_TransferMode_call v : keeps_camera (TransferMode_call v).
Proof. unfold TransferMode_call. keeps. Qed.

Lemma keeps_Transfer : keeps_camera Transfer.
Proof.
  unfold Transfer. apply keeps_bind; [apply keeps_get|].
  intros [m|]; [apply keeps_TransferMode_call | apply keeps_raise].
Qed.

Lemma keeps_capture location : keeps_camera (capture location).
Proof.
  intros w. unfold capture.
  generalize (capture_command (inLiveViewMode w) (AutoFocus w) location).
  intros command. revert w.
  change (keeps_camera
            (response <- _execute command ;;
             if PyStr.contains "error" response then
               seg <- subscript (PyStr.split "message:" response) 1 ;;
               logging_error ("Error executing capture command: " ++
                              PyStr.strip chars_crlf seg) ;;
               ret None
             else LastCaptured)).
  keeps.
Qed.

Lemma keeps_focus : keeps_camera focus.
Proof.
  intros w. unfold focus. destruct (inLiveViewMode w).
  - revert w. change (keeps_camera (_execute "do LiveView_Focus" ;; ret tt)). keeps.
  - apply keeps_logging_error.
Qed.

Lemma keeps_startRecording : keeps_camera startRecording.
Proof.
  intros w. rewrite startRecording_unfold.
  generalize (if inLiveViewMode w then "do LiveViewWnd_StartRecord"
              else "do StartRecord").
  intros command. revert w.
  change (keeps_camera
            (response <- _execute command ;;
             seg <- subscript (PyStr.split "response:" response) 1 ;;
             if String.eqb (PyStr.strip chars_value seg) "" then ret true
             else
               logging_error ("Error starting video recording: " ++
                              PyStr.strip chars_value seg) ;;
               ret false)).
  keeps.
Qed.

Lemma keeps_stopRecording : keeps_camera stopRecording.
Proof.
  intros w. unfold stopRecording.
  generalize (if inLiveViewMode w then "do LiveViewWnd_StopRecord"
              else "do StopRecord").
  intros command. revert w.
  change (keeps_camera (_execute command ;; ret tt)). keeps.
Qed.

Lemma keeps_singleLineCommand command_type :
  keeps_camera (singleLineCommand command_type).
Proof. unfold singleLineCommand. keeps. Qed.

(** X18.  Apart from the two methods that switch live view, no method
    changes a field of the camera: each leaves [inLiveViewMode],
    [AutoFocus] and the path of the relay as they were, and only adds to
    the invocations made and to the log. *)
Theorem methods_keep_camera :
  (forall param, keeps_camera (_get param)) /\
  (forall param value, keeps_camera (_set param value)) /\
  (forall param, keeps_camera (_list param)) /\
  keeps_camera LastCaptured /\
  keeps_camera Transfer /\
  (forall mode, keeps_camera (set_Transfer mode)) /\
  (forall location, keeps_camera (capture location)) /\
  keeps_camera focus /\
  keeps_camera startRecording /\
  keeps_camera stopRecording /\
  keeps_camera minimizeAll /\
  keeps_camera closeAll /\
  (forall command_type, keeps_camera (singleLineCommand command_type)).
Proof.
  repeat match goal with |- _ /\ _ => split end;
    auto using keeps_get, keeps_set, keeps_list, keeps_LastCaptured, keeps_Transfer,
      keeps_capture, keeps_focus, keeps_startRecording, keeps_stopRecording,
      keeps_singleLineCommand.
  - intros mode. unfold set_Transfer. apply keeps_bind; [apply keeps_set | keeps].
  - unfold minimizeAll. keeps.
  - unfold closeAll. keeps.
Qed.

(** *** More on the string operations *)

Module PyStrMore.
Import PyStr PyStrFacts.

Lemma contains_inside p a x b :
  contains p x = true -> contains p (a ++ x ++ b) = true.
Proof.
  intros H. apply contains_iff in H as (u & v & ->).
  apply contains_iff. exists (a ++ u), (v ++ b).
  now rewrite !app_assoc'.
Qed.

Lemma contains_outside p a x b :
  contains p (a ++ x ++ b) = false -> contains p x = false.
Proof.
  intros H. destruct (contains p x) eqn:E; [|reflexivity].
  rewrite (contains_inside p a x b E) in H. discriminate.
Qed.

(** The text before the leftmost occurrence holds no occurrence. *)
Lemma leftmost_free sep a b s :
  sep <> "" -> leftmost sep a b s -> contains sep a = false.
Proof.
  intros Hne [-> Hl]. destruct (contains sep a) eqn:E; [|reflexivity].
  apply contains_iff in E as (u & v & ->).
  specialize (Hl (String.length u)).
  rewrite !app_assoc', drop_app, startswith_app in Hl.
  assert (0 < String.length sep) by (destruct sep; [congruence | simpl; lia]).
  rewrite !length_app in Hl. discriminate Hl. lia.
Qed.

(** Every piece [split] returns is a part of the text, free of [sep]. *)
Lemma split_piece sep x : sep <> "" -> forall n s,
  String.length s < n -> In x (split sep s) ->
  contains sep x = false /\ exists a b, s = a ++ x ++ b.
Proof.
  intros Hne. induction n as [|n IH]; intros s Hn Hin; [lia|].
  rewrite split_unfold in Hin by assumption.
  destruct (partition sep s) as [[a b]|] eqn:P.
  - pose proof (partition_shorter _ _ _ _ Hne P) as Hb.
    apply partition_sound in P. destruct Hin as [<-|Hin].
    + split; [now apply (leftmost_free sep a b s)|].
      exists "", (sep ++ b). now destruct P.
    + destruct (IH b ltac:(lia) Hin) as (Hc & a' & b' & Hb').
      split; [exact Hc|]. exists (a ++ sep ++ a'), b'.
      destruct P as [-> _]. rewrite Hb' at 1. now rewrite !app_assoc'.
  - destruct Hin as [<-|[]]. split; [now apply partition_None_iff|].
    exists "", "". now rewrite app_empty_r.
Qed.

Lemma split_pieces sep s x :
  sep <> "" -> In x (split sep s) ->
  contains sep x = false /\ exists a b, s = a ++ x ++ b.
Proof. intros Hne. apply (split_piece sep x Hne (S (String.length s))). lia. Qed.

Lemma contains_char_app c a b :
  contains (String c "") (a ++ b) =
  contains (String c "") a || contains (String c "") b.
Proof.
  induction a as [|d a IH].
  - reflexivity.
  - change (contains (String c "") (String d a ++ b))
      with (startswith (String c "") (String d (a ++ b))
            || contains (String c "") (a ++ b)).
    change (contains (String c "") (String d a))
      with (startswith (String c "") (String d a) || contains (String c "") a).
    rewrite IH. simpl. now rewrite orb_assoc.
Qed.

Lemma join_empty_free c l :
  (forall x, In x l -> contains (String c "") x = false) ->
  contains (String c "") (join "" l) = false.
Proof.
  induction l as [|x [|y rest] IH]; intros H.
  - reflexivity.
  - apply H. now left.
  - rewrite join_cons. change ("" ++ join "" (y :: rest)) with (join "" (y :: rest)).
    rewrite contains_char_app, (H x (or_introl eq_refl)), IH; [reflexivity|].
    intros z Hz. apply H. now right.
Qed.

(** Replacing a character by nothing leaves none of it. *)
Lemma replace_removes c s :
  contains (String c "") (replace (String c "") "" s) = false.
Proof.
  unfold replace. apply join_empty_free. intros x Hx.
  now apply (split_pieces (String c "") s x ltac:(discriminate)).
Qed.

(** The field after a marker is a part of the text, free of the marker. *)
Lemma field_part marker raw body :
  marker <> "" -> field marker raw body ->
  contains marker body = false /\ exists a b, raw = a ++ body ++ b.
Proof.
  intros Hne (pre & tail & [-> _] & Hu).
  destruct Hu as [[Hc ->]|(rest & Hl)].
  - split; [exact Hc|]. exists (pre ++ marker), "".
    now rewrite app_empty_r, app_assoc'.
  - split; [now apply (leftmost_free marker body rest tail)|].
    destruct Hl as [-> _]. exists (pre ++ marker), (marker ++ rest).
    now rewrite !app_assoc'.
Qed.

Lemma strip_part chars s : exists a b, s = a ++ strip chars s ++ b.
Proof.
  destruct (strip_stripped chars s) as [(l & t & H & _) _]. now exists l, t.
Qed.

End PyStrMore.

(** *** What a result of [_get] and [_list] tells about the answer *)

Lemma get_inv param w r :
  fst (_get param w) = Return r ->
  exists raw,
    relay w (calls w) (invocation w ("get " ++ param)) = Exited0 raw /\
    ((r = None /\ PyStr.contains "error" raw = true /\
      exists msg, field "message:" raw msg /\
        snd (_get param w) =
        add_log (ERROR ("Error executing get command: " ++ PyStr.strip chars_crlf msg))
                (executed w ("get " ++ param) raw)) \/
     (PyStr.contains "error" raw = false /\
      exists body, field "response:" raw body /\
        r = Some (PyStr.strip chars_value body) /\
        snd (_get param w) = executed w ("get " ++ param) raw)).
Proof.
  unfold _get, bind, _execute. fold (invocation w ("get " ++ param)).
  destruct (relay w (calls w) (invocation w ("get " ++ param))) as [raw|rc|e].
  - intros H. exists raw. split; [reflexivity|].
    destruct (PyStr.contains "error" raw) eqn:He; unfold subscript in *.
    + destruct (nth_error (PyStr.split "message:" raw) 1) as [msg|] eqn:Hn;
        simpl in H; [|discriminate].
      left. injection H as <-. repeat split. exists msg.
      split; [now apply PyStrFacts.split_1_inv | reflexivity].
    + destruct (nth_error (PyStr.split "response:" raw) 1) as [body|] eqn:Hn;
        simpl in H; [|discriminate].
      right. injection H as <-. split; [reflexivity|]. exists body.
      split; [now apply PyStrFacts.split_1_inv | split; reflexivity].
  - intros H. discriminate H.
  - intros H. discriminate H.
Qed.

Lemma list_inv param w l :
  fst (_list param w) = Return l ->
  exists raw,
    relay w (calls w) (invocation w ("list " ++ param)) = Exited0 raw /\
    ((l = [] /\ PyStr.contains "error" raw = true /\
      PyStr.contains "message:" raw = true) \/
     (PyStr.contains "error" raw = false /\
      exists body, field "response:" raw body /\
        l = PyStr.split "," (PyStr.replace DQ "" (PyStr.strip chars_list body)))).
Proof.
  unfold _list, bind, _execute. fold (invocation w ("list " ++ param)).
  destruct (relay w (calls w) (invocation w ("list " ++ param))) as [raw|rc|e].
  - intros H. exists raw. split; [reflexivity|].
    destruct (PyStr.contains "error" raw) eqn:He; unfold subscript in *.
    + destruct (nth_error (PyStr.split "message:" raw) 1) as [msg|] eqn:Hn;
        simpl in H; [|discriminate].
      left. injection H as <-. repeat split.
      destruct (PyStr.contains "message:" raw) eqn:Hm; [reflexivity|].
      rewrite (PyStrFacts.split_1_absent _ _ marker_message_nonempty Hm) in Hn.
      discriminate.
    + destruct (nth_error (PyStr.split "response:" raw) 1) as [body|] eqn:Hn;
        simpl in H; [|discriminate].
      right. injection H as <-. split; [reflexivity|]. exists body.
      split; [now apply PyStrFacts.split_1_inv | reflexivity].
  - intros H. discriminate H.
  - intros H. discriminate H.
Qed.

(** X1.  A value [_get] returns holds neither the error token nor the
    response marker, and neither starts nor ends with a quote, a
    semicolon or a line-break character.  So a setting whose text holds
    the error token can never be read back. *)
Theorem get_value_is_clean param w v :
  fst (_get param w) = Return (Some v) ->
  PyStr.contains "error" v = false /\
  PyStr.contains "response:" v = false /\
  (forall c, PyStr.first_char v = Some c -> PyStr.mem_char c chars_value = false) /\
  (forall c, PyStr.last_char v = Some c -> PyStr.mem_char c chars_value = false).
Proof.
  intros H. destruct (get_inv _ _ _ H) as (raw & _ & [(Hn & _)|(He & body & Hf & Hv & _)]);
    [discriminate|].
  injection Hv as ->.
  destruct (PyStrMore.field_part _ _ _ marker_response_nonempty Hf)
    as (Hfree & a & b & ->).
  destruct (PyStrMore.strip_part chars_value body) as (a' & b' & Hb).
  destruct (PyStrFacts.strip_stripped chars_value body) as (_ & Hfirst & Hlast).
  repeat split; try assumption.
  - apply PyStrMore.contains_outside in He. rewrite Hb in He.
    now apply PyStrMore.contains_outside in He.
  - rewrite Hb in Hfree. now apply PyStrMore.contains_outside in Hfree.
Qed.

Lemma get_value_is_clean_witness :
  PyStr.contains "error" "1/125" = false /\
  PyStr.contains "response:" "1/125" = false.
Proof.
  destruct (get_value_is_clean "shutterspeed"
              (fresh (relay_print ("response:" ++ DQ ++ "1/125" ++ DQ ++ ";" ++ CRLF)))
              "1/125" eq_refl) as (H1 & H2 & _).
  split; [exact H1 | exact H2].
Defined.

(** X2.  [_get] returns [None] only after an answer with the error
    token, and then the log has grown by the record of the invocation and
    by one error record: absence never goes unlogged. *)
Theorem get_absence_is_logged param w :
  fst (_get param w) = Return None ->
  exists raw message,
    relay w (calls w) (invocation w ("get " ++ param)) = Exited0 raw /\
    PyStr.contains "error" raw = true /\
    log (snd (_get param w)) =
      (log w ++ [INFO_execute (invocation w ("get " ++ param)) raw;
                 ERROR ("Error executing get command: " ++ message)])%list.
Proof.
  intros H. destruct (get_inv _ _ _ H)
    as (raw & Hex & [(_ & He & msg & _ & Hw)|(_ & body & _ & Hv & _)]);
    [|discriminate].
  exists raw, (PyStr.strip chars_crlf msg). repeat split; try assumption.
  rewrite Hw. simpl. now rewrite <- app_assoc.
Qed.

Lemma get_absence_is_logged_witness :
  exists raw message,
    PyStr.contains "error" raw = true /\
    log (snd (_get "iso" (fresh (relay_print ("error;message:No such property" ++ CRLF)))))
    = [INFO_execute
         (invocation (fresh (relay_print ("error;message:No such property" ++ CRLF)))
            "get iso") raw;
       ERROR ("Error executing get command: " ++ message)].
Proof.
  destruct (get_absence_is_logged "iso"
              (fresh (relay_print ("error;message:No such property" ++ CRLF))) eq_refl)
    as (raw & message & _ & He & Hlog).
  exists raw, message. split; [exact He | exact Hlog].
Defined.

(** X3.  [_list] returns the empty sequence exactly when the relay
    printed an answer with the error token and the message marker.  On
    every other answer it returns at least one element (an empty list of
    the protocol comes back as one empty text) or raises. *)
Theorem list_empty_iff_error param w :
  fst (_list param w) = Return [] <->
  exists raw,
    relay w (calls w) (invocation w ("list " ++ param)) = Exited0 raw /\
    PyStr.contains "error" raw = true /\
    PyStr.contains "message:" raw = true.
Proof.
  split.
  - intros H. destruct (list_inv _ _ _ H)
      as (raw & Hex & [(_ & He & Hm)|(_ & body & _ & Hl)]).
    + now exists raw.
    + destruct (PyStrFacts.split_head ","
                  (PyStr.replace DQ "" (PyStr.strip chars_list body))
                  ltac:(discriminate)) as (x & rest & E).
      rewrite E in Hl. discriminate.
  - intros (raw & Hex & He & Hm).
    destruct (subscript_split_present _ _ marker_message_nonempty Hm)
      as (msg & _ & Hsub).
    unfold _list, bind. rewrite (execute_printed _ _ _ Hex), He, Hsub.
    reflexivity.
Qed.

Lemma list_empty_iff_error_witness :
  fst (_list "iso" (fresh (relay_print ("error;message:No such property" ++ CRLF))))
  = Return [].
Proof.
  apply (proj2 (list_empty_iff_error "iso"
                  (fresh (relay_print ("error;message:No such property" ++ CRLF))))).
  exists ("error;message:No such property" ++ CRLF).
  split; [reflexivity|]. split; reflexivity.
Defined.

Example list_of_empty_answer :
  fst (_list "iso" (fresh (relay_print ("response:[];" ++ CRLF)))) = Return [""].
Proof. reflexivity. Qed.

(** X4.  No element [_list] returns holds a quote character or a
    comma. *)
Theorem list_values_are_clean param w l x :
  fst (_list param w) = Return l -> In x l ->
  PyStr.contains DQ x = false /\ PyStr.contains "," x = false.
Proof.
  intros H Hx. destruct (list_inv _ _ _ H)
    as (raw & _ & [(-> & _)|(_ & body & _ & ->)]); [destruct Hx|].
  destruct (PyStrMore.split_pieces "," _ x ltac:(discriminate) Hx)
    as (Hcomma & a & b & Hpart).
  split; [|exact Hcomma].
  pose proof (PyStrMore.replace_removes (ascii_of_nat 34)
                (PyStr.strip chars_list body)) as Hq.
  fold DQ in Hq. rewrite Hpart in Hq.
  now apply PyStrMore.contains_outside in Hq.
Qed.

Lemma list_values_are_clean_witness :
  PyStr.contains DQ "200" = false /\ PyStr.contains "," "200" = false.
Proof.
  apply (list_values_are_clean "iso"
           (fresh (relay_print
                     ("response:[" ++ DQ ++ "100" ++ DQ ++ "," ++ DQ ++ "200" ++ DQ
                      ++ "];" ++ CRLF)))
           ["100"; "200"] "200" eq_refl).
  right. left. reflexivity.
Defined.

(** X5.  Reading [Transfer] turns the spaces of the value [_get]
    returned into underscores and looks the result up among the values
    of [TransferMode]: it returns the member with that value, so the
    spaced and the underscored spelling are both accepted, and raises
    [ValueError] when no member has it. *)
Theorem Transfer_reads_value w v :
  fst (_get "transfer" w) = Return (Some v) ->
  (forall m, PyStr.replace " " "_" v = TransferMode_value m ->
             fst (Transfer w) = Return m) /\
  ((forall m, PyStr.replace " " "_" v <> TransferMode_value m) ->
   fst (Transfer w) = Raise (ValueError (PyStr.replace " " "_" v))).
Proof.
  intros H. unfold Transfer, bind.
  destruct (_get "transfer" w) as [[r|e] w1]; simpl in H; [|discriminate].
  injection H as ->. split.
  - intros m Hm. rewrite Hm. destruct m; reflexivity.
  - intros Hno. unfold TransferMode_call.
    destruct (String.eqb_spec (PyStr.replace " " "_" v) (TransferMode_value PC)) as [E|_];
      [now apply Hno in E|].
    destruct (String.eqb_spec (PyStr.replace " " "_" v) (TransferMode_value CAMERA))
      as [E|_]; [now apply Hno in E|].
    destruct (String.eqb_spec (PyStr.replace " " "_" v) (TransferMode_value BOTH))
      as [E|_]; [now apply Hno in E|].
    reflexivity.
Qed.

Lemma Transfer_reads_value_witness :
  fst (Transfer (fresh (relay_print ("response:" ++ DQ ++ "Save_to_PC_only" ++ DQ ++ ";"))))
  = Return PC /\
  fst (Transfer (fresh (relay_print ("response:" ++ DQ ++ "Save to SD card" ++ DQ ++ ";"))))
  = Raise (ValueError "Save_to_SD_card").
Proof.
  split.
  - apply (proj1 (Transfer_reads_value
                    (fresh (relay_print ("response:" ++ DQ ++ "Save_to_PC_only" ++ DQ ++ ";")))
                    "Save_to_PC_only" eq_refl) PC).
    reflexivity.
  - apply (proj2 (Transfer_reads_value
                    (fresh (relay_print ("response:" ++ DQ ++ "Save to SD card" ++ DQ ++ ";")))
                    "Save to SD card" eq_refl)).
    intros []; discriminate.
Defined.

(** X6.  [_set] issues one command, the parameter and the value after
    the word set, and answers from the text the relay prints, as [_get]
    does: [None] after logging the message of an error answer, else the
    stripped field after the first response marker.  What it returns is
    the relay's answer, not the value it was given. *)
Theorem set_parses param value w raw :
  relay w (calls w) (invocation w ("set " ++ param ++ " " ++ value)) = Exited0 raw ->
  let w1 := executed w ("set " ++ param ++ " " ++ value) raw in
  (PyStr.contains "error" raw = true ->
   PyStr.contains "message:" raw = true ->
   exists msg, field "message:" raw msg /\
     _set param value w =
     (Return None,
      add_log (ERROR ("Error executing set command: " ++ PyStr.strip chars_crlf msg)) w1)) /\
  (PyStr.contains "error" raw = false ->
   PyStr.contains "response:" raw = true ->
   exists body, field "response:" raw body /\
     _set param value w = (Return (Some (PyStr.strip chars_value body)), w1)).
Proof.
  intros Hex w1. split.
  - intros He Hm.
    destruct (subscript_split_present _ _ marker_message_nonempty Hm)
      as (msg & Hf & Hsub).
    exists msg. split; [exact Hf|].
    unfold _set, bind. rewrite (execute_printed _ _ _ Hex), He, Hsub.
    reflexivity.
  - intros He Hr.
    destruct (subscript_split_present _ _ marker_response_nonempty Hr)
      as (body & Hf & Hsub).
    exists body. split; [exact Hf|].
    unfold _set, bind. rewrite (execute_printed _ _ _ Hex), He, Hsub.
    reflexivity.
Qed.

Lemma set_parses_witness :
  fst (_set "iso" "400" (fresh (relay_print ("response:" ++ DQ ++ "OK" ++ DQ ++ ";" ++ CRLF))))
  = Return (Some "OK").
Proof.
  destruct (set_parses "iso" "400"
              (fresh (relay_print ("response:" ++ DQ ++ "OK" ++ DQ ++ ";" ++ CRLF)))
              ("response:" ++ DQ ++ "OK" ++ DQ ++ ";" ++ CRLF) eq_refl)
    as (_ & Hval).
  destruct (Hval eq_refl eq_refl) as (body & Hf & Hrun).
  pose proof (PyStrFacts.split_1_field _ _ _ marker_response_nonempty Hf) as E.
  vm_compute in E. injection E as <-. rewrite Hrun. reflexivity.
Defined.

(** X7.  [LastCaptured] is [_get] for the parameter lastcaptured: the
    same invocation and the same result on every answer, and the same
    world after it unless the answer holds the error token (the two
    differ by the wording of the logged error only). *)
Theorem LastCaptured_is_get w :
  fst (LastCaptured w) = fst (_get "lastcaptured" w) /\
  calls (snd (LastCaptured w)) = calls (snd (_get "lastcaptured" w)) /\
  (forall raw,
     relay w (calls w) (invocation w "get lastcaptured") = Exited0 raw ->
     PyStr.contains "error" raw = false ->
     LastCaptured w = _get "lastcaptured" w).
Proof.
  unfold LastCaptured, _get, bind, _execute.
  change ("get " ++ "lastcaptured") with "get lastcaptured".
  fold (invocation w "get lastcaptured").
  destruct (relay w (calls w) (invocation w "get lastcaptured")) as [raw|rc|e].
  - destruct (PyStr.contains "error" raw) eqn:He; unfold subscript.
    + destruct (nth_error (PyStr.split "message:" raw) 1);
        repeat split; intros; congruence.
    + destruct (nth_error (PyStr.split "response:" raw) 1); repeat split.
  - repeat split; intros; congruence.
  - repeat split; intros; congruence.
Qed.

Lemma LastCaptured_is_get_witness :
  LastCaptured (fresh relay_stale) = _get "lastcaptured" (fresh relay_stale).
Proof.
  destruct (LastCaptured_is_get (fresh relay_stale)) as (_ & _ & H).
  apply (H ("response:" ++ DQ ++ "D:\shots\DSC_0001.jpg" ++ DQ ++ ";" ++ CRLF));
    reflexivity.
Defined.

(** X8.  [capture] reads its own answer for the error token only.
    On an answer without it, [capture] goes on to [LastCaptured] and
    returns what that returns; so it does when the capture process exits
    non-zero, since the empty text holds no error token: a failed capture
    still reports the last captured file.  On an error answer with its
    message marker it returns [None] after its single invocation. *)
Theorem capture_reports_last_captured location w :
  let command := capture_command (inLiveViewMode w) (AutoFocus w) location in
  (forall raw,
     relay w (calls w) (invocation w command) = Exited0 raw ->
     PyStr.contains "error" raw = false ->
     capture location w = LastCaptured (executed w command raw)) /\
  (forall rc,
     relay w (calls w) (invocation w command) = CalledProcessError rc ->
     capture location w =
     LastCaptured (add_log (ERROR_execute (invocation w command) rc)
                           (add_call (invocation w command) w))) /\
  (forall raw,
     relay w (calls w) (invocation w command) = Exited0 raw ->
     PyStr.contains "error" raw = true ->
     PyStr.contains "message:" raw = true ->
     fst (capture location w) = Return None /\
     calls (snd (capture location w)) = (calls w ++ [invocation w command])%list).
Proof.
  intros command. unfold capture, bind. fold command.
  repeat match goal with |- _ /\ _ => split end.
  - intros raw Hex He. now rewrite (execute_printed _ _ _ Hex), He.
  - intros rc Hex. now rewrite (execute_nonzero _ _ _ Hex).
  - intros raw Hex He Hm.
    destruct (subscript_split_present _ _ marker_message_nonempty Hm)
      as (msg & _ & Hsub).
    rewrite (execute_printed _ _ _ Hex), He, Hsub. split; reflexivity.
Qed.

Lemma capture_reports_last_captured_witness :
  fst (capture None (fresh relay_stale)) = Return (Some "D:\shots\DSC_0001.jpg").
Proof.
  destruct (capture_reports_last_captured None (fresh relay_stale)) as (_ & H & _).
  rewrite (H 1 eq_refl). reflexivity.
Defined.

Lemma startLiveView_flag w : inLiveViewMode (snd (startLiveView w)) = true.
Proof.
  pose proof (keeps_execute "do LiveViewWnd_Show" (set_inLiveViewMode true w))
    as (Hl & _).
  unfold startLiveView, minimizeAll, bind.
  destruct (_execute "do LiveViewWnd_Show" (set_inLiveViewMode true w))
    as [[r|e] wa]; cbn [snd] in Hl; simpl in Hl; [|exact Hl].
  pose proof (keeps_execute "do All_Minimize" wa) as (Hl' & _).
  destruct (_execute "do All_Minimize" wa) as [[r'|e'] wb];
    cbn [snd] in Hl'; unfold ret; cbn [snd]; congruence.
Qed.

(** X9.  [startLiveView] sets [inLiveViewMode] before it talks to the
    relay and does not look at its earlier value: whatever the relay
    does, the flag is set afterwards and the show command was issued,
    followed at most by the minimize command. *)
Theorem startLiveView_sets_flag_first w :
  inLiveViewMode (snd (startLiveView w)) = true /\
  exists rest,
    calls (snd (startLiveView w)) =
      (calls w ++ invocation w "do LiveViewWnd_Show" :: rest)%list /\
    (rest = [] \/ rest = [invocation w "do All_Minimize"]).
Proof.
  unfold startLiveView, minimizeAll, bind.
  pose proof (execute_effect (set_inLiveViewMode true w) "do LiveViewWnd_Show")
    as (Hc & Hl & _ & Hu & _).
  destruct (_execute "do LiveViewWnd_Show" (set_inLiveViewMode true w))
    as [[r|e] wa]; cbn [snd] in Hc, Hl, Hu; simpl in Hl, Hu.
  - pose proof (execute_effect wa "do All_Minimize") as (Hc' & Hl' & _).
    destruct (_execute "do All_Minimize" wa) as [[r'|e'] wb];
      cbn [snd] in Hc', Hl'; unfold ret; cbn [snd];
      (split; [congruence|]); exists [invocation w "do All_Minimize"];
      (split; [|now right]); rewrite Hc', Hc; unfold invocation; rewrite Hu;
      simpl; now rewrite <- app_assoc.
  - cbn [snd]. split; [exact Hl|]. exists []. split; [exact Hc | now left].
Qed.

(** X10.  When entering [liveView] raises, the wrapped operation is
    not run and live view is not stopped: the exception leaves the
    bracket with [inLiveViewMode] still set and no hide command issued. *)
Theorem liveView_entry_failure (A : Type) (body : M A) w e :
  fst (startLiveView w) = Raise e ->
  liveView body w = (Raise e, snd (startLiveView w)) /\
  inLiveViewMode (snd (liveView body w)) = true.
Proof.
  intros H.
  assert (Hrun : liveView body w = (Raise e, snd (startLiveView w))).
  { unfold liveView. destruct (startLiveView w) as [[[]|e'] w1]; simpl in H;
      [discriminate|]. now injection H as ->. }
  split; [exact Hrun|]. rewrite Hrun. apply startLiveView_flag.
Qed.

Lemma liveView_entry_failure_witness :
  fst (liveView (ret 7) (fresh relay_missing)) = Raise (OtherError "FileNotFoundError") /\
  inLiveViewMode (snd (liveView (ret 7) (fresh relay_missing))) = true /\
  calls (snd (liveView (ret 7) (fresh relay_missing))) =
    [invocation (fresh relay_missing) "do LiveViewWnd_Show"].
Proof.
  destruct (liveView_entry_failure nat (ret 7) (fresh relay_missing)
              (OtherError "FileNotFoundError") eq_refl) as (Hrun & Hflag).
  split; [now rewrite Hrun|]. split; [exact Hflag | now rewrite Hrun].
Defined.

(** X11.  When stopping live view raises at the end of [liveView],
    that exception is the outcome of the bracket, whatever the wrapped
    operation returned or raised. *)
Theorem liveView_stop_exception_wins (A : Type) (body : M A) w w1 e :
  startLiveView w = (Return tt, w1) ->
  fst (stopLiveView (snd (body w1))) = Raise e ->
  fst (liveView body w) = Raise e.
Proof.
  intros Hstart Hstop. unfold liveView. rewrite Hstart.
  destruct (body w1) as [r w2]. simpl in Hstop.
  destruct (stopLiveView w2) as [[[]|e'] w3]; simpl in Hstop; [discriminate|].
  now injection Hstop as ->.
Qed.

Lemma liveView_stop_exception_wins_witness :
  fst (liveView (@raise unit (ValueError "from the body")) (fresh relay_no_hide))
  = Raise (OtherError "OSError").
Proof.
  apply (liveView_stop_exception_wins unit (raise (ValueError "from the body"))
           (fresh relay_no_hide) (snd (startLiveView (fresh relay_no_hide)))
           (OtherError "OSError") eq_refl eq_refl).
Defined.

Lemma execute_returns w command :
  (forall e, relay w (calls w) (invocation w command) <> Failed e) ->
  exists r, fst (_execute command w) = Return r.
Proof.
  intros H. unfold _execute. fold (invocation w command).
  destruct (relay w (calls w) (invocation w command)) as [raw|rc|e]; simpl; eauto.
  now destruct (H e).
Qed.

Lemma discard_returns w command :
  (forall e, relay w (calls w) (invocation w command) <> Failed e) ->
  fst ((_execute command ;; ret tt) w) = Return tt.
Proof.
  intros H. unfold bind. destruct (execute_returns w command H) as [r Hr].
  destruct (_execute command w) as [[r'|e] w1]; simpl in Hr; [reflexivity|discriminate].
Qed.

(** X12.  The commands that do not read the answer return normally
    whatever the relay prints, and also when its process exits non-zero:
    [stopRecording], [minimizeAll], [closeAll], [stopLiveView] and
    [focus] raise only what the invocation itself raises. *)
Theorem discarding_commands_return w :
  (forall command e, relay w (calls w) (invocation w command) <> Failed e) ->
  fst (stopRecording w) = Return tt /\
  fst (minimizeAll w) = Return tt /\
  fst (closeAll w) = Return tt /\
  fst (stopLiveView w) = Return tt /\
  fst (focus w) = Return tt.
Proof.
  intros H. repeat split.
  - unfold stopRecording. apply discard_returns. apply H.
  - apply discard_returns, H.
  - apply discard_returns, H.
  - unfold stopLiveView. unfold bind at 1. cbn [fst snd].
    apply (discard_returns (set_inLiveViewMode false w)). apply H.
  - unfold focus. destruct (inLiveViewMode w); [|reflexivity].
    apply discard_returns, H.
Qed.

Lemma discarding_commands_return_witness :
  fst (stopRecording (fresh (relay_const (CalledProcessError 1)))) = Return tt /\
  fst (closeAll (fresh (relay_const (CalledProcessError 1)))) = Return tt.
Proof.
  destruct (discarding_commands_return (fresh (relay_const (CalledProcessError 1))))
    as (H1 & _ & H3 & _).
  - intros command e. discriminate.
  - split; [exact H1 | exact H3].
Defined.

(** X13.  [startRecording] does not look for the error token.  On
    every answer without the response marker, an error answer included,
    and when the process exits non-zero, it raises [IndexError] instead
    of returning a boolean. *)
Theorem startRecording_raises_without_marker w :
  let command := if inLiveViewMode w then "do LiveViewWnd_StartRecord"
                 else "do StartRecord" in
  (forall raw,
     relay w (calls w) (invocation w command) = Exited0 raw ->
     PyStr.contains "response:" raw = false ->
     fst (startRecording w) = Raise IndexError) /\
  (forall rc,
     relay w (calls w) (invocation w command) = CalledProcessError rc ->
     fst (startRecording w) = Raise IndexError).
Proof.
  intros command. split.
  - intros raw Hex Hr. rewrite startRecording_unfold. unfold bind. fold command.
    rewrite (execute_printed _ _ _ Hex).
    now rewrite (subscript_split_absent _ _ _ marker_response_nonempty Hr).
  - intros rc Hex. rewrite startRecording_unfold. unfold bind. fold command.
    now rewrite (execute_nonzero _ _ _ Hex).
Qed.

Lemma startRecording_raises_without_marker_witness :
  fst (startRecording
         (fresh (relay_print ("error;message:Camera is busy" ++ CRLF))))
  = Raise IndexError.
Proof.
  destruct (startRecording_raises_without_marker
              (fresh (relay_print ("error;message:Camera is busy" ++ CRLF))))
    as (H & _).
  apply (H ("error;message:Camera is busy" ++ CRLF)); reflexivity.
Defined.

(** X14.  [singleLineCommand] passes the five command words on to the
    relay as they are, as the whole command, and returns the text the
    relay prints without reading it.  For every other word it makes no
    invocation, logs one error and returns [None]. *)
Theorem singleLineCommand_gate command_type w :
  (In command_type valid_commands ->
   calls (snd (singleLineCommand command_type w)) =
     (calls w ++ [invocation w command_type])%list /\
   forall raw,
     relay w (calls w) (invocation w command_type) = Exited0 raw ->
     fst (singleLineCommand command_type w) = Return (Some raw)) /\
  (~ In command_type valid_commands ->
   singleLineCommand command_type w =
   (Return None,
    add_log (ERROR ("Invalid command type: " ++ command_type ++
                    ". Valid commands are ['get', 'set', 'list', 'capture', 'do']."))
            w)).
Proof.
  unfold singleLineCommand. split.
  - intros Hin.
    assert (E : existsb (String.eqb command_type) valid_commands = true).
    { apply existsb_exists. exists command_type. split; [exact Hin|].
      apply String.eqb_refl. }
    rewrite E. cbn [negb]. unfold bind. split.
    + pose proof (execute_effect w command_type) as (Hc & _).
      destruct (_execute command_type w) as [[r|e] w1]; exact Hc.
    + intros raw Hex. now rewrite (execute_printed _ _ _ Hex).
  - intros Hout.
    assert (E : existsb (String.eqb command_type) valid_commands = false).
    { destruct (existsb (String.eqb command_type) valid_commands) eqn:E; [|reflexivity].
      apply existsb_exists in E as (x & Hx & Heq).
      apply String.eqb_eq in Heq. subst x. contradiction. }
    rewrite E. reflexivity.
Qed.

Lemma singleLineCommand_gate_witness :
  fst (singleLineCommand "capture"
         (fresh (relay_print ("error;message:No camera" ++ CRLF))))
  = Return (Some ("error;message:No camera" ++ CRLF)) /\
  calls (snd (singleLineCommand "get iso" (fresh (relay_print "")))) = [].
Proof.
  destruct (singleLineCommand_gate "capture"
              (fresh (relay_print ("error;message:No camera" ++ CRLF)))) as (Hin & _).
  destruct (singleLineCommand_gate "get iso" (fresh (relay_print ""))) as (_ & Hout).
  split.
  - apply Hin; [|reflexivity]. right. right. right. left. reflexivity.
  - rewrite Hout; [reflexivity|].
    intros [H|[H|[H|[H|[H|[]]]]]]; discriminate H.
Defined.

(** X15.  When the application is not where the path says, the
    constructor does not raise the [ValueError] its code names: building
    the message reads [digicamcontrol_path], which is neither assigned to
    the object nor defined by the class, so an [AttributeError] leaves
    the constructor, before anything is launched. *)
Theorem init_missing_application h d t af :
  path_exists h (path_join h d "CameraControl.exe") = false ->
  __init__ h d t af = (Raise AttributeError, boot0) /\
  existsb (String.eqb "digicamcontrol_path") class_names = false.
Proof.
  intros H. split; [|reflexivity].
  unfold __init__. simpl. rewrite H. reflexivity.
Qed.

Lemma init_missing_application_witness :
  fst (__init__ host_bare "C:\Program Files (x86)\digiCamControl" 5 true)
  = Raise AttributeError.
Proof.
  destruct (init_missing_application host_bare
              "C:\Program Files (x86)\digiCamControl" 5 true eq_refl) as (H & _).
  now rewrite H.
Defined.





